(** * Resource assignment and simulation orchestration: a shallow embedding

    The development follows the TypeScript sources of the front end:

    - [JS]         : the few JavaScript primitives the handlers rely on
                     (string prefix and replace, array splice, plain objects
                     used as maps with their property order);
    - [Workforce]  : [pages/WorkforcePage.tsx] -- the assignment ledger, the
                     drag handlers, the auto-scroll loop and the sequential
                     simulation run with its aggregate;
    - [Allocation] : [components/WorkforceAllocation.tsx] -- the two-list
                     drag handler;
    - [Chatbot]    : the floating chat component and its socket handling;
    - [Config]     : [config/api.ts] -- the API address and the socket
                     address derived from it.

    JavaScript numbers that carry measurements (cycle times, percentages,
    pixel coordinates) are binary64 floating-point numbers, [float], with the
    operations of IEEE 754 in round-to-nearest-even: what the theorems say
    about a sum or a quotient, they say about the rounded one the code
    computes.  General facts about these operations rest on their
    specification in the standard library ([FloatAxioms]). *)

From Stdlib Require Import PrimFloat FloatOps SpecFloat FloatAxioms.
From Stdlib Require Import ZArith QArith Lia String Ascii Sorted.
From Stdlib Require Uint63.
From stdpp Require Import base list strings.

Set Warnings "-inexact-float".

Local Open Scope string_scope.
Local Open Scope list_scope.

(* ===================================================================== *)
(** ** JavaScript primitives *)
(* ===================================================================== *)

Module JS.

(** [s.startsWith(p)] *)
Definition startsWith (s p : string) : bool := String.prefix p s.

(** [s.replace(pat, rep)] with a string pattern: only the first occurrence
    is replaced; a string without occurrence is returned as it is. *)
Fixpoint replace (s pat rep : string) : string :=
  if String.prefix pat s
  then rep ++ String.substring (String.length pat)
                               (String.length s - String.length pat) s
  else match s with
       | EmptyString => EmptyString
       | String c t => String c (replace t pat rep)
       end.

(** [arr.splice(i, 1)] on a copy: the element at [i] is removed; an index
    beyond the end removes nothing. *)
Definition splice_remove {A} (i : nat) (arr : list A) : list A := delete i arr.

(** [arr.splice(i, 0, x)] on a copy: [x] is inserted before position [i];
    an index beyond the end is clamped to the length. *)
Definition splice_insert {A} (i : nat) (x : A) (arr : list A) : list A :=
  take i arr ++ x :: drop i arr.

(** *** Plain objects used as maps

    A [Record<string, V>] is kept as the list of its own properties in
    creation order, each key at most once. *)
Definition object (V : Type) : Type := list (string * V).

(** The own property [k] of [o], if it has one. *)
Fixpoint get {V} (o : object V) (k : string) : option V :=
  match o with
  | [] => None
  | (k', v) :: rest => if String.eqb k' k then Some v else get rest k
  end.

(** [{...o, [k]: v}]: the own property [k] is written; an existing one keeps
    its place, a new one is created last. *)
Fixpoint define {V} (o : object V) (k : string) (v : V) : object V :=
  match o with
  | [] => [(k, v)]
  | (k', v') :: rest =>
      if String.eqb k' k then (k', v) :: rest else (k', v') :: define rest k v
  end.

(** The members a plain object inherits from [Object.prototype] (ECMAScript
    with its Annex B, as browsers have it).  Read through an object that has
    no own property of the name, each is a function, but for [__proto__], an
    accessor that yields the prototype object: all are truthy, none is
    iterable. *)
Definition prototypeMembers : list string :=
  [ "constructor"; "hasOwnProperty"; "isPrototypeOf"; "propertyIsEnumerable";
    "toLocaleString"; "toString"; "valueOf"; "__proto__";
    "__defineGetter__"; "__defineSetter__"; "__lookupGetter__"; "__lookupSetter__" ].

Definition inherits (k : string) : bool := existsb (String.eqb k) prototypeMembers.

(** What [o[k]] yields on an object whose prototype is [Object.prototype], as
    every object literal and every spread copy [{...o}] is: the own property,
    or else an inherited member, or else [undefined]. *)
Inductive Read (V : Type) : Type :=
| Own (v : V)
| Inherited
| Undefined.
Arguments Own {V} v.
Arguments Inherited {V}.
Arguments Undefined {V}.

Definition read {V} (o : object V) (k : string) : Read V :=
  match get o k with
  | Some v => Own v
  | None => if inherits k then Inherited else Undefined
  end.

(** [o[k] = v] for an array [v].  An own property is overwritten in place.
    Without one the prototype chain decides: [__proto__] is an accessor of
    [Object.prototype] whose setter replaces the prototype of [o] and creates
    no property; every other inherited member is a writable data property,
    and the new own property is created last. *)
Definition set {V} (o : object V) (k : string) (v : V) : object V :=
  match get o k with
  | Some _ => define o k v
  | None => if String.eqb k "__proto__" then o else define o k v
  end.

Definition keys {V} (o : object V) : list string := map fst o.

(** Array-index keys: the canonical decimal spelling of an integer below
    [2^32 - 1].  Such keys are enumerated first, in ascending numeric order. *)
Definition digit (c : ascii) : option N :=
  let n := N_of_ascii c in
  if ((48 <=? n) && (n <=? 57))%N then Some (n - 48)%N else None.

Fixpoint decimal (acc : N) (s : string) : option N :=
  match s with
  | EmptyString => Some acc
  | String c t =>
      match digit c with
      | Some d => decimal (acc * 10 + d)%N t
      | None => None
      end
  end.

Definition arrayIndex (k : string) : option N :=
  match k with
  | EmptyString => None
  | String "0" EmptyString => Some 0%N
  | String "0" _ => None
  | _ => match decimal 0 k with
         | Some n => if (n <? 4294967295)%N then Some n else None
         | None => None
         end
  end.

Fixpoint insertIndexed {V} (n : N) (kv : string * V)
    (l : list (N * (string * V))) : list (N * (string * V)) :=
  match l with
  | [] => [(n, kv)]
  | (m, kv') :: rest =>
      if (n <=? m)%N then (n, kv) :: l else (m, kv') :: insertIndexed n kv rest
  end.

Fixpoint indexed {V} (o : object V) : list (N * (string * V)) :=
  match o with
  | [] => []
  | kv :: rest =>
      match arrayIndex (fst kv) with
      | Some n => insertIndexed n kv (indexed rest)
      | None => indexed rest
      end
  end.

Fixpoint named {V} (o : object V) : list (string * V) :=
  match o with
  | [] => []
  | kv :: rest =>
      match arrayIndex (fst kv) with
      | Some _ => named rest
      | None => kv :: named rest
      end
  end.

(** [Object.entries(o)]: array-index keys in ascending order, then the other
    keys in creation order. *)
Definition entries {V} (o : object V) : list (string * V) :=
  map snd (indexed o) ++ named o.

(** [Object.values(o)] *)
Definition values {V} (o : object V) : list V := map snd (entries o).

End JS.

(* ===================================================================== *)
(** ** pages/WorkforcePage.tsx *)
(* ===================================================================== *)

Module Workforce.

(** *** Data *)

Record Employee := {
  id : string;
  name : string;
  role : string;
  efficiency : Z
}.

(** A node of the topology, its [data] flattened. *)
Record ProcessNode := {
  node_id : string;
  label : string;
  isBottleneck : bool;
  avgDuration : float
}.

Record Simulation := {
  cycle_time_before : float;
  cycle_time_after : float;
  cycle_reduction_pct : float;
  throughput_gain_pct : float;
  opex_increase : float;
  is_bottleneck : bool;
  impact_score : float
}.

(** The body of a reply of [/api/suggest]. *)
Record Suggestion := {
  simulation : Simulation;
  ai_suggestion : string
}.

Definition initialEmployees : list Employee :=
  [ {| id := "emp-1"; name := "Alice Chen"; role := "Snr. Analyst"; efficiency := 95 |};
    {| id := "emp-2"; name := "Bob Smith"; role := "Approver"; efficiency := 78 |};
    {| id := "emp-3"; name := "Charlie D"; role := "Clerk"; efficiency := 82 |};
    {| id := "emp-4"; name := "Dana Lee"; role := "QA Engineer"; efficiency := 88 |};
    {| id := "emp-5"; name := "Eve Park"; role := "Snr. Approver"; efficiency := 91 |};
    {| id := "emp-6"; name := "Frank Wu"; role := "Analyst"; efficiency := 75 |} ].

(** *** What leaves the component *)

Inductive ToastType := info | success | error | loading.

(** One call [showToast(message, type, duration?)]. *)
Record Toast := {
  message : string;
  level : ToastType;
  duration : option Z
}.

(** The JSON body posted to [/api/suggest]. *)
Record Request := {
  process_id : string;
  process_label : string;
  assigned : list Employee
}.

Inductive Phase := idle | simulating | analyzing | complete.

(** What a handler throws and nothing catches. *)
Inductive Exception := TypeError.

(** The log of what the component did to its collaborators, oldest first:
    the toasts shown, the bodies posted to [/api/suggest], the phases passed
    to [setSimPhase], and the exceptions that left a handler uncaught. *)
Record Outside := {
  toasts : list Toast;
  posted : list Request;
  phaseLog : list Phase;
  uncaught : list Exception
}.

(** *** Component state *)

Record Ledger := {
  availableStaff : list Employee;
  assignments : JS.object (list Employee)
}.

Record Panel := {
  suggestionProcess : string;
  isLoadingSuggestion : bool;
  showSuggestion : bool
}.

Record Progress := {
  current : nat;
  total : nat;
  progress_label : string
}.

Record SimResult := {
  processName : string;
  result_simulation : Simulation;
  suggestion : string
}.

Record SimView := {
  showSimModal : bool;
  simPhase : Phase;
  simProgress : Progress;
  simResults : list SimResult;
  simAggregate : option Simulation
}.

(** A scrollable element: the top and the bottom of its bounding rectangle,
    its scroll offset, and the largest offset it can take
    ([scrollHeight - clientHeight]). *)
Record Region := {
  rect_top : float;
  rect_bottom : float;
  scrollTop : float;
  scrollMax : float
}.

Record Scroll := {
  isDragging : bool;
  scrollEl : option Region;
  poolEl : option Region;
  lastMouseEvent : option float
}.

Record Page := {
  processes : list ProcessNode;
  ledger : Ledger;
  panel : Panel;
  sim : SimView;
  scroll : Scroll;
  out : Outside
}.

Definition with_ledger (f : Ledger -> Ledger) (p : Page) : Page :=
  {| processes := processes p; ledger := f (ledger p); panel := panel p;
     sim := sim p; scroll := scroll p; out := out p |}.
Definition with_panel (f : Panel -> Panel) (p : Page) : Page :=
  {| processes := processes p; ledger := ledger p; panel := f (panel p);
     sim := sim p; scroll := scroll p; out := out p |}.
Definition with_sim (f : SimView -> SimView) (p : Page) : Page :=
  {| processes := processes p; ledger := ledger p; panel := panel p;
     sim := f (sim p); scroll := scroll p; out := out p |}.
Definition with_scroll (f : Scroll -> Scroll) (p : Page) : Page :=
  {| processes := processes p; ledger := ledger p; panel := panel p;
     sim := sim p; scroll := f (scroll p); out := out p |}.
Definition with_out (f : Outside -> Outside) (p : Page) : Page :=
  {| processes := processes p; ledger := ledger p; panel := panel p;
     sim := sim p; scroll := scroll p; out := f (out p) |}.

Definition setProcesses (v : list ProcessNode) (p : Page) : Page :=
  {| processes := v; ledger := ledger p; panel := panel p;
     sim := sim p; scroll := scroll p; out := out p |}.

Definition setAvailableStaff (v : list Employee) : Page -> Page :=
  with_ledger (fun l => {| availableStaff := v; assignments := assignments l |}).
Definition setAssignments (v : JS.object (list Employee)) : Page -> Page :=
  with_ledger (fun l => {| availableStaff := availableStaff l; assignments := v |}).

Definition setSuggestionProcess (v : string) : Page -> Page :=
  with_panel (fun s => {| suggestionProcess := v;
                          isLoadingSuggestion := isLoadingSuggestion s;
                          showSuggestion := showSuggestion s |}).
Definition setIsLoadingSuggestion (v : bool) : Page -> Page :=
  with_panel (fun s => {| suggestionProcess := suggestionProcess s;
                          isLoadingSuggestion := v;
                          showSuggestion := showSuggestion s |}).
Definition setShowSuggestion (v : bool) : Page -> Page :=
  with_panel (fun s => {| suggestionProcess := suggestionProcess s;
                          isLoadingSuggestion := isLoadingSuggestion s;
                          showSuggestion := v |}).

Definition setShowSimModal (v : bool) : Page -> Page :=
  with_sim (fun s => {| showSimModal := v; simPhase := simPhase s;
                        simProgress := simProgress s; simResults := simResults s;
                        simAggregate := simAggregate s |}).
Definition setSimProgress (v : Progress) : Page -> Page :=
  with_sim (fun s => {| showSimModal := showSimModal s; simPhase := simPhase s;
                        simProgress := v; simResults := simResults s;
                        simAggregate := simAggregate s |}).
Definition setSimResults (v : list SimResult) : Page -> Page :=
  with_sim (fun s => {| showSimModal := showSimModal s; simPhase := simPhase s;
                        simProgress := simProgress s; simResults := v;
                        simAggregate := simAggregate s |}).
Definition setSimAggregate (v : option Simulation) : Page -> Page :=
  with_sim (fun s => {| showSimModal := showSimModal s; simPhase := simPhase s;
                        simProgress := simProgress s; simResults := simResults s;
                        simAggregate := v |}).

(** [setSimPhase] also leaves a mark in the log, so that phases a run only
    passes through stay observable in its final state. *)
Definition setSimPhase (v : Phase) (p : Page) : Page :=
  with_out (fun o => {| toasts := toasts o; posted := posted o;
                        phaseLog := phaseLog o ++ [v]; uncaught := uncaught o |})
    (with_sim (fun s => {| showSimModal := showSimModal s; simPhase := v;
                           simProgress := simProgress s; simResults := simResults s;
                           simAggregate := simAggregate s |}) p).

Definition setIsDragging (v : bool) : Page -> Page :=
  with_scroll (fun s => {| isDragging := v; scrollEl := scrollEl s;
                           poolEl := poolEl s; lastMouseEvent := lastMouseEvent s |}).
Definition setScrollEl (v : option Region) : Page -> Page :=
  with_scroll (fun s => {| isDragging := isDragging s; scrollEl := v;
                           poolEl := poolEl s; lastMouseEvent := lastMouseEvent s |}).
Definition setPoolEl (v : option Region) : Page -> Page :=
  with_scroll (fun s => {| isDragging := isDragging s; scrollEl := scrollEl s;
                           poolEl := v; lastMouseEvent := lastMouseEvent s |}).
Definition setLastMouseEvent (v : option float) : Page -> Page :=
  with_scroll (fun s => {| isDragging := isDragging s; scrollEl := scrollEl s;
                           poolEl := poolEl s; lastMouseEvent := v |}).

Definition showToast (m : string) (t : ToastType) (d : option Z) : Page -> Page :=
  with_out (fun o => {| toasts := toasts o ++ [ {| message := m; level := t; duration := d |} ];
                        posted := posted o; phaseLog := phaseLog o;
                        uncaught := uncaught o |}).
Definition post (r : Request) : Page -> Page :=
  with_out (fun o => {| toasts := toasts o; posted := posted o ++ [r];
                        phaseLog := phaseLog o; uncaught := uncaught o |}).

(** A handler is left by an exception: the state updates it queued before
    stay queued and are applied, the rest of the handler is not run. *)
Definition raise (e : Exception) : Page -> Page :=
  with_out (fun o => {| toasts := toasts o; posted := posted o;
                        phaseLog := phaseLog o; uncaught := uncaught o ++ [e] |}).

(** [a || b] on strings: the empty string is falsy. *)
Definition orElse (a b : string) : string :=
  if String.eqb a EmptyString then b else a.

(** [processes.find(p => p.id === processId)] *)
Definition findProcess (ps : list ProcessNode) (processId : string) : option ProcessNode :=
  List.find (fun p => String.eqb (node_id p) processId) ps.

(** [proc?.data.label || dflt] *)
Definition labelOr (proc : option ProcessNode) (dflt : string) : string :=
  match proc with
  | Some p => orElse (label p) dflt
  | None => dflt
  end.

(** *** Drag gestures *)

Record Location := {
  droppableId : string;
  index : nat
}.

Record DropResult := {
  source : Location;
  destination : option Location
}.

(** The synchronous part of [fetchSuggestion]: the panel is opened in its
    loading state and the request leaves; the reply is handled later and
    touches the panel only. *)
Definition fetchSuggestion (processId processLabel : string)
    (staff : list Employee) (p : Page) : Page :=
  post {| process_id := processId; process_label := processLabel; assigned := staff |}
    (setShowSuggestion true
       (setSuggestionProcess processLabel
          (setIsLoadingSuggestion true p))).


(** [onDragEnd].  Dragging from the pool, the staff of the process is read
    from the spread copy [newAssignments] while it is spread itself,
    [[...(newAssignments[processId] || []), draggedEmployee]]: an inherited
    member is truthy and not iterable, so the spread throws a [TypeError],
    after [setAvailableStaff(newPool)] and before anything else.  Dragging
    from a process, [(assignments[processId] || [])[source.index]] is read:
    only an own array has an element there (a member inherited from the
    prototype chain is a function, a number or the prototype object, whose
    element at an index is [undefined]), so the own property decides. *)
Definition onDragEnd (result : DropResult) (p0 : Page) : Page :=
  let p := setIsDragging false p0 in
  match destination result with
  | None => p
  | Some dest =>
    let src := source result in
    if String.eqb (droppableId src) (droppableId dest) then p
    else if String.eqb (droppableId src) "employee-pool" then
      match availableStaff (ledger p) !! index src with
      | None => p
      | Some draggedEmployee =>
        if JS.startsWith (droppableId dest) "process-" then
          let processId := JS.replace (droppableId dest) "process-" EmptyString in
          let newPool := JS.splice_remove (index src) (availableStaff (ledger p)) in
          let p1 := setAvailableStaff newPool p in
          match JS.read (assignments (ledger p)) processId with
          | JS.Inherited => raise TypeError p1
          | JS.Own _ | JS.Undefined =>
            let staff :=
              default [] (JS.get (assignments (ledger p)) processId) ++ [draggedEmployee] in
            let newAssignments := JS.set (assignments (ledger p)) processId staff in
            let proc := findProcess (processes p) processId in
            let p2 := setAssignments newAssignments p1 in
            let p3 :=
              showToast ("Assigned " ++ name draggedEmployee ++ " to " ++ labelOr proc "process")
                        success (Some 3000%Z) p2 in
            match proc with
            | Some pr => fetchSuggestion processId (label pr) staff p3
            | None => p3
            end
          end
        else p
      end
    else if JS.startsWith (droppableId src) "process-" then
      let processId := JS.replace (droppableId src) "process-" EmptyString in
      let processStaff := default [] (JS.get (assignments (ledger p)) processId) in
      match processStaff !! index src with
      | None => p
      | Some draggedEmployee =>
        if String.eqb (droppableId dest) "employee-pool" then
          let newProcessStaff := JS.splice_remove (index src) processStaff in
          let newAssignments := JS.set (assignments (ledger p)) processId newProcessStaff in
          let p1 := setAssignments newAssignments p in
          let p2 := setAvailableStaff (availableStaff (ledger p1) ++ [draggedEmployee]) p1 in
          showToast (name draggedEmployee ++ " returned to pool") info (Some 2000%Z) p2
        else p
      end
    else p
  end.

(** [removeFromProcess]: [(assignments[processId] || [])[empIndex]] is read,
    where again only an own array has an element. *)
Definition removeFromProcess (processId : string) (empIndex : nat) (p : Page) : Page :=
  let processStaff := default [] (JS.get (assignments (ledger p)) processId) in
  match processStaff !! empIndex with
  | None => p
  | Some emp =>
    let newStaff := JS.splice_remove empIndex processStaff in
    let p1 := setAssignments (JS.define (assignments (ledger p)) processId newStaff) p in
    let p2 := setAvailableStaff (availableStaff (ledger p1) ++ [emp]) p1 in
    showToast (name emp ++ " returned to pool") info (Some 2000%Z) p2
  end.

(** [totalAssigned] *)
Definition totalAssigned (p : Page) : nat :=
  fold_left (fun sum arr => sum + length arr) (JS.values (assignments (ledger p))) 0.

(** The object built by [data.nodes.forEach]: [initialAssignments[n.id] = []]
    for every node. *)
Definition initialAssignments (nodes : list ProcessNode) : JS.object (list Employee) :=
  fold_left (fun o n => JS.set o (node_id n) []) nodes [].

(** The reply of [/api/topology] arrives: [Some (Some nodes)] is a body with
    a [nodes] array, [Some None] a body without one, [None] a failed fetch. *)
Definition fetchTopology (reply : option (option (list ProcessNode))) (p : Page) : Page :=
  match reply with
  | Some (Some nodes) => setAssignments (initialAssignments nodes) (setProcesses nodes p)
  | Some None => showToast "Failed to load process data" error None (setProcesses [] p)
  | None => showToast "Failed to load process data" error None p
  end.

(** The component as [useState] and [useRef] initialise it. *)
Definition initialPage : Page :=
  {| processes := [];
     ledger := {| availableStaff := initialEmployees; assignments := [] |};
     panel := {| suggestionProcess := EmptyString; isLoadingSuggestion := false;
                 showSuggestion := false |};
     sim := {| showSimModal := false; simPhase := idle;
               simProgress := {| current := 0; total := 0; progress_label := EmptyString |};
               simResults := []; simAggregate := None |};
     scroll := {| isDragging := false; scrollEl := None; poolEl := None;
                  lastMouseEvent := None |};
     out := {| toasts := []; posted := []; phaseLog := []; uncaught := [] |} |}.

(** *** The ledger as a whole *)

(** Every worker reference the ledger holds: the pool first, then each
    location's sequence in iteration order. *)
Definition workers (l : Ledger) : list Employee :=
  availableStaff l ++ concat (JS.values (assignments l)).

(** How many times a worker id occurs in the whole ledger. *)
Definition occurrences (wid : string) (l : Ledger) : nat :=
  length (List.filter (fun w => String.eqb (id w) wid) (workers l)).

(** All workers in the pool, every location empty. *)
Definition allInPool (l : Ledger) : Prop :=
  availableStaff l = initialEmployees /\
  Forall (fun kv => snd kv = []) (assignments l).

(** The two ways the ledger is written. *)
Inductive LedgerEvent :=
| Drag (result : DropResult)
| Remove (processId : string) (empIndex : nat).

Definition handle (e : LedgerEvent) (p : Page) : Page :=
  match e with
  | Drag result => onDragEnd result p
  | Remove processId empIndex => removeFromProcess processId empIndex p
  end.

Inductive reachable : Page -> Prop :=
| reachable_init p : allInPool (ledger p) -> reachable p
| reachable_step p e : reachable p -> reachable (handle e p).

(** *** Auto-scroll while dragging *)

Definition EDGE_SIZE : float := 80.
Definition SCROLL_SPEED : float := 8.

(** The offset an element takes when [v] is assigned to its [scrollTop]
    (CSSOM View): a value that is not finite counts as 0, and the offset is
    clamped to the scroll range of the element, from 0 to [scrollMax].  An
    engine that also snaps offsets to device pixels is not modelled. *)
Definition clampScroll (v : float) (el : Region) : float :=
  let v := if is_finite v then v else 0%float in
  if (v <? 0)%float then 0%float
  else if (scrollMax el <? v)%float then scrollMax el
  else v.

(** [el.scrollTop = v] *)
Definition setScrollTop (v : float) (el : Region) : Region :=
  {| rect_top := rect_top el; rect_bottom := rect_bottom el;
     scrollTop := clampScroll v el; scrollMax := scrollMax el |}.

(** One region's share of [handleMouseMove]. *)
Definition scrollRegion (y : float) (el : Region) : Region :=
  if (y <? rect_top el + EDGE_SIZE)%float && (rect_top el <? y)%float then
    let intensity := (1 - (y - rect_top el) / EDGE_SIZE)%float in
    setScrollTop (scrollTop el - SCROLL_SPEED * intensity)%float el
  else if (rect_bottom el - EDGE_SIZE <? y)%float && (y <? rect_bottom el)%float then
    let intensity := (1 - (rect_bottom el - y) / EDGE_SIZE)%float in
    setScrollTop (scrollTop el + SCROLL_SPEED * intensity)%float el
  else el.

Definition handleMouseMove (clientY : float) (p : Page) : Page :=
  if negb (isDragging (scroll p)) then p
  else
    let p1 := setScrollEl (scrollRegion clientY <$> scrollEl (scroll p)) p in
    setPoolEl (scrollRegion clientY <$> poolEl (scroll p1)) p1.

Definition onMouseMove (clientY : float) (p : Page) : Page :=
  setLastMouseEvent (Some clientY) p.

(** One animation frame. *)
Definition tick (p : Page) : Page :=
  match lastMouseEvent (scroll p) with
  | Some y => if isDragging (scroll p) then handleMouseMove y p else p
  | None => p
  end.

(** *** The simulation run *)

(** The remote service as the run meets it: the reply to the [i]-th request
    of a run, [None] when the fetch (or the decoding of its body) fails. *)
Definition Remote : Type := nat -> Request -> option Suggestion.

Definition nonEmpty (kv : string * list Employee) : bool :=
  (0 <? length (snd kv))%nat.

(** The length of an array as a number; it is below [2^32], and exact. *)
Definition ofNat (n : nat) : float := of_uint63 (Uint63.of_Z (Z.of_nat n)).

(** [allResults.reduce((s, r) => s + f(r.simulation), 0)] *)
Definition reduceSum (f : Simulation -> float) (allResults : list SimResult) : float :=
  fold_left (fun s r => (s + f (result_simulation r))%float) allResults 0%float.

Definition aggregate (allResults : list SimResult) : Simulation :=
  {| cycle_time_before :=
       (reduceSum cycle_time_before allResults / ofNat (length allResults))%float;
     cycle_time_after :=
       (reduceSum cycle_time_after allResults / ofNat (length allResults))%float;
     cycle_reduction_pct :=
       (reduceSum cycle_reduction_pct allResults / ofNat (length allResults))%float;
     throughput_gain_pct :=
       (reduceSum throughput_gain_pct allResults / ofNat (length allResults))%float;
     opex_increase := reduceSum opex_increase allResults;
     is_bottleneck :=
       existsb (fun r => is_bottleneck (result_simulation r)) allResults;
     impact_score :=
       (reduceSum impact_score allResults / ofNat (length allResults))%float |}.

(** The body of the [for] loop, from step [i] on.  The second component is
    [None] when a step threw, and the accumulated [allResults] otherwise.
    The minimum dwell of 600 ms per step only delays the step and is left
    out. *)
Fixpoint simulateEach (remote : Remote) (assignedCount : nat) (i : nat)
    (todo : list (string * list Employee)) (allResults : list SimResult)
    (p : Page) : Page * option (list SimResult) :=
  match todo with
  | [] => (p, Some allResults)
  | (processId, staff) :: rest =>
    let proc := findProcess (processes p) processId in
    let lbl := labelOr proc "Unknown" in
    let p1 := setSimProgress {| current := i + 1; total := assignedCount;
                                progress_label := lbl |} p in
    let body := {| process_id := processId; process_label := lbl;
                   assigned := staff |} in
    let p2 := post body p1 in
    match remote i body with
    | None => (p2, None)
    | Some res =>
      let allResults' :=
        allResults ++ [ {| processName := lbl; result_simulation := simulation res;
                           suggestion := ai_suggestion res |} ] in
      simulateEach remote assignedCount (S i) rest allResults'
                   (setSimResults allResults' p2)
    end
  end.

Definition assignedProcesses (p : Page) : list (string * list Employee) :=
  List.filter nonEmpty (JS.entries (assignments (ledger p))).

(** The run as one transition from the page it was started on to the page
    it ends with: [assignments] and [processes] are those of the render the
    callback closed over, and no other handler is interleaved at its awaits.
    A reply is taken to have the shape its TypeScript type gives it. *)
Definition runFullSimulation (remote : Remote) (p : Page) : Page :=
  let todo := assignedProcesses p in
  if (length todo =? 0)%nat then
    showToast "No employees assigned yet" error (Some 3000%Z) p
  else
    let p1 :=
      setSimAggregate None
        (setSimResults [] (setSimPhase simulating (setShowSimModal true p))) in
    match simulateEach remote (length todo) 0 todo [] p1 with
    | (p2, Some allResults) =>
        setSimPhase complete
          (setSimAggregate (Some (aggregate allResults))
             (setSimPhase analyzing p2))
    | (p2, None) =>
        setSimPhase idle
          (setShowSimModal false (showToast "Simulation failed" error None p2))
    end.

(** The two close buttons of the modal. *)
Definition closeModal (p : Page) : Page :=
  setSimPhase idle (setShowSimModal false p).

(** *** Reference notions the results are compared with *)

(** The sum of a list of numbers as binary64 gives it when they are added
    one by one, from the left, to 0. *)
Definition total_of (xs : list float) : float := fold_left add xs 0%float.

(** Their arithmetic mean as binary64 gives it: that sum, divided by their
    number. *)
Definition mean (xs : list float) : float :=
  (total_of xs / ofNat (length xs))%float.

(** What a number is worth, when it is finite. *)
Definition exact (x : float) : option Q :=
  match Prim2SF x with
  | S754_zero _ => Some 0%Q
  | S754_finite s m e =>
      Some ((if s then -1 else 1) * inject_Z (Z.pos m) * (2 ^ e))%Q
  | S754_infinity _ | S754_nan => None
  end.

(** The sum of what the numbers of a list are worth. *)
Fixpoint exactSum (xs : list float) : option Q :=
  match xs with
  | [] => Some 0%Q
  | x :: rest =>
      match exact x, exactSum rest with
      | Some q, Some r => Some (q + r)%Q
      | _, _ => None
      end
  end.

(** The sequence at a droppable: the pool, or the array the assignments
    hold, as an own property, for the process a [process-] id names; empty
    when they hold none. *)
Definition sequenceAt (l : Ledger) (droppable : string) : list Employee :=
  if String.eqb droppable "employee-pool" then availableStaff l
  else if JS.startsWith droppable "process-"
       then default [] (JS.get (assignments l) (JS.replace droppable "process-" EmptyString))
       else [].

Definition isProcess (droppable : string) : Prop :=
  droppable <> "employee-pool" /\ JS.startsWith droppable "process-" = true.

Definition isLocation (droppable : string) : Prop :=
  droppable = "employee-pool" \/ isProcess droppable.

(** The request a run makes for one location. *)
Definition bodyFor (ps : list ProcessNode) (kv : string * list Employee) : Request :=
  {| process_id := kv.1;
     process_label := labelOr (findProcess ps kv.1) "Unknown";
     assigned := kv.2 |}.

(** The requests of a full run: one per non-empty location, in the ledger's
    iteration order. *)
Definition requestsOf (p : Page) : list Request :=
  map (bodyFor (processes p)) (assignedProcesses p).

(** The result a reply yields. *)
Definition resultOf (body : Request) (res : Suggestion) : SimResult :=
  {| processName := process_label body;
     result_simulation := simulation res;
     suggestion := ai_suggestion res |}.

(** The results of the requests [reqs], made as steps [i], [i+1], ... *)
Definition repliesFrom (remote : Remote) (i : nat) (reqs : list Request) : list SimResult :=
  omap (fun r => r) (imap (fun j body => resultOf body <$> remote (i + j) body) reqs).

Definition allSucceed (remote : Remote) (reqs : list Request) : Prop :=
  forall j body, reqs !! j = Some body -> is_Some (remote j body).

(** Step [k] (counted from 0) is the first whose call fails. *)
Definition failsAtStep (remote : Remote) (reqs : list Request) (k : nat) : Prop :=
  (exists body, reqs !! k = Some body /\ remote k body = None) /\
  allSucceed remote (take k reqs).

(** What the steps of a run leave alone: everything but the progress, the
    results and the list of posted requests. *)
Definition sameButProgress (p p' : Page) : Prop :=
  processes p' = processes p /\ ledger p' = ledger p /\ panel p' = panel p /\
  scroll p' = scroll p /\ toasts (out p') = toasts (out p) /\
  phaseLog (out p') = phaseLog (out p) /\
  showSimModal (sim p') = showSimModal (sim p) /\
  simPhase (sim p') = simPhase (sim p) /\
  simAggregate (sim p') = simAggregate (sim p).



(** The requests a page posted beyond those of an earlier page. *)
Definition postedSince (before after : Page) : list Request :=
  drop (length (posted (out before))) (posted (out after)).

Definition toastsSince (before after : Page) : list Toast :=
  drop (length (toasts (out before))) (toasts (out after)).

Definition phasesSince (before after : Page) : list Phase :=
  drop (length (phaseLog (out before))) (phaseLog (out after)).

Definition uncaughtSince (before after : Page) : list Exception :=
  drop (length (uncaught (out before))) (uncaught (out after)).

(** A sequence of ledger events, handled one after the other. *)
Definition handleAll (es : list LedgerEvent) (p : Page) : Page :=
  fold_left (fun q e => handle e q) es p.

(** *** Sample pages, built by the handlers themselves *)

Definition alice : Employee :=
  {| id := "emp-1"; name := "Alice Chen"; role := "Snr. Analyst"; efficiency := 95 |}.
Definition bob : Employee :=
  {| id := "emp-2"; name := "Bob Smith"; role := "Approver"; efficiency := 78 |}.


Definition threeSteps : list ProcessNode :=
  [ {| node_id := "approve"; label := "Approve Invoice"; isBottleneck := true;
       avgDuration := 4 |};
    {| node_id := "pay"; label := "Pay Invoice"; isBottleneck := false;
       avgDuration := 2 |};
    {| node_id := "archive"; label := "Archive Invoice"; isBottleneck := false;
       avgDuration := 1 |} ].

(** The page once the topology with its three steps has arrived. *)
Definition loaded : Page := fetchTopology (Some (Some threeSteps)) initialPage.

Definition gesture (from : string) (i : nat) (to : string) (j : nat) : DropResult :=
  {| source := {| droppableId := from; index := i |};
     destination := Some {| droppableId := to; index := j |} |}.

(** Alice dropped on the first step. *)
Definition oneStaffed : Page :=
  handle (Drag (gesture "employee-pool" 0 "process-approve" 0)) loaded.

(** Then Bob dropped on the second step. *)
Definition bothStaffed : Page :=
  handle (Drag (gesture "employee-pool" 0 "process-pay" 0)) oneStaffed.

(** Then Charlie dropped on the third step. *)
Definition allStaffed : Page :=
  handle (Drag (gesture "employee-pool" 0 "process-archive" 0)) bothStaffed.

Definition sampleReply : Suggestion :=
  {| simulation :=
       {| cycle_time_before := 10; cycle_time_after := 8;
          cycle_reduction_pct := 20; throughput_gain_pct := 25;
          opex_increase := 3; is_bottleneck := true; impact_score := 7 |};
     ai_suggestion := "Keep this assignment." |}.

(** A result with a given cycle reduction, cost increase and flag. *)
Definition resultWith (pct opex : float) (flag : bool) : SimResult :=
  {| processName := "step";
     result_simulation :=
       {| cycle_time_before := 10; cycle_time_after := 8;
          cycle_reduction_pct := pct; throughput_gain_pct := 25;
          opex_increase := opex; is_bottleneck := flag; impact_score := 7 |};
     suggestion := "none" |}.

Definition threeResults : list SimResult :=
  [ resultWith 10 1 false; resultWith 20 2 true; resultWith 30 4 false ].

(** Three results whose reductions and costs are 0.1, 0.2 and 0.3. *)
Definition tenths : list SimResult :=
  [ resultWith 0.1 0.1 false; resultWith 0.2 0.2 false; resultWith 0.3 0.3 false ].

(** A service that answers the steps of a run with these three. *)
Definition repliesWith (rs : list SimResult) : Remote :=
  fun i _ =>
    (fun r => {| simulation := result_simulation r; ai_suggestion := suggestion r |})
      <$> rs !! i.

(** A service that always answers, and one whose [k]-th answer is lost. *)
Definition alwaysReplies : Remote := fun _ _ => Some sampleReply.
Definition failsOn (k : nat) : Remote :=
  fun i _ => if (i =? k)%nat then None else Some sampleReply.


(** A region 600 pixels tall, below a 100 pixel header. *)
Definition tallRegion : Region :=
  {| rect_top := 100; rect_bottom := 700; scrollTop := 50; scrollMax := 400 |}.



(** A topology whose second step has the id [__proto__], and the page once
    it has arrived. *)
Definition protoSteps : list ProcessNode :=
  [ {| node_id := "approve"; label := "Approve Invoice"; isBottleneck := true;
       avgDuration := 4 |};
    {| node_id := "__proto__"; label := "Review Invoice"; isBottleneck := false;
       avgDuration := 2 |} ].

Definition protoLoaded : Page := fetchTopology (Some (Some protoSteps)) initialPage.

(** The header shows the run button under [totalAssigned > 0]. *)
Definition runButtonShown (p : Page) : bool := (0 <? totalAssigned p)%nat.

(** The droppable id the page renders for a process. *)
Definition droppableOf (processId : string) : string := "process-" ++ processId.


End Workforce.

(* ===================================================================== *)
(** ** components/WorkforceAllocation.tsx *)
(* ===================================================================== *)

Module Allocation.

Record Employee := {
  id : string;
  name : string;
  role : string;
  efficiency : Z
}.

Definition initialEmployees : list Employee :=
  [ {| id := "emp-1"; name := "Alice Chen"; role := "Snr. Analyst"; efficiency := 95 |};
    {| id := "emp-2"; name := "Bob Smith"; role := "Approver"; efficiency := 78 |};
    {| id := "emp-3"; name := "Charlie D"; role := "Clerk"; efficiency := 82 |};
    {| id := "emp-4"; name := "Dana Lee"; role := "QA Engineer"; efficiency := 88 |};
    {| id := "emp-5"; name := "Eve Park"; role := "Snr. Approver"; efficiency := 91 |};
    {| id := "emp-6"; name := "Frank Wu"; role := "Analyst"; efficiency := 75 |} ].

Record State := {
  availableStaff : list Employee;
  assignedStaff : list Employee
}.

Definition initialState : State :=
  {| availableStaff := initialEmployees; assignedStaff := [] |}.

Record Location := {
  droppableId : string;
  index : nat
}.

Record DropResult := {
  source : Location;
  destination : option Location
}.

(** The list a droppable id stands for: ['available'], and the assigned list
    for anything else. *)
Definition listOf (st : State) (droppable : string) : list Employee :=
  if String.eqb droppable "available" then availableStaff st else assignedStaff st.

Definition setList (droppable : string) (items : list Employee) (st : State) : State :=
  if String.eqb droppable "available"
  then {| availableStaff := items; assignedStaff := assignedStaff st |}
  else {| availableStaff := availableStaff st; assignedStaff := items |}.

(** The handler has no staleness check: with a source index beyond the end,
    [splice] hands back no element and [undefined] is stored in the
    destination list, which the next render dereferences ([emp.id]).  That
    outcome is [None]; every other one is the next state. *)
Definition onDragEnd (result : DropResult) (st : State) : option State :=
  match destination result with
  | None => Some st
  | Some dest =>
    let src := source result in
    let sourceList := listOf st (droppableId src) in
    let destList := listOf st (droppableId dest) in
    if String.eqb (droppableId src) (droppableId dest) then
      match sourceList !! index src with
      | Some reorderedItem =>
        let items :=
          JS.splice_insert (index dest) reorderedItem
            (JS.splice_remove (index src) sourceList) in
        Some (setList (droppableId src) items st)
      | None => None
      end
    else
      match sourceList !! index src with
      | Some movedItem =>
        let sourceClone := JS.splice_remove (index src) sourceList in
        let destClone := JS.splice_insert (index dest) movedItem destList in
        if String.eqb (droppableId src) "available"
        then Some {| availableStaff := sourceClone; assignedStaff := destClone |}
        else Some {| availableStaff := destClone; assignedStaff := sourceClone |}
      | None => None
      end
  end.

(** The two droppables the component renders. *)
Definition isList (droppable : string) : Prop :=
  droppable = "available" \/ droppable = "assigned".

Definition gesture (from : string) (i : nat) (to : string) (j : nat) : DropResult :=
  {| source := {| droppableId := from; index := i |};
     destination := Some {| droppableId := to; index := j |} |}.

Definition alice : Employee :=
  {| id := "emp-1"; name := "Alice Chen"; role := "Snr. Analyst"; efficiency := 95 |}.

(** The states the component passes through: every gesture is between the
    two lists it renders, and the handler got through it. *)
Inductive reachable : State -> Prop :=
| reachable_init : reachable initialState
| reachable_step st result st' :
    reachable st ->
    isList (droppableId (source result)) ->
    (forall dest, destination result = Some dest -> isList (droppableId dest)) ->
    onDragEnd result st = Some st' ->
    reachable st'.

End Allocation.

(* ===================================================================== *)
(** ** The floating chat component *)
(* ===================================================================== *)

Module Chatbot.

(** A JavaScript string: its UTF-16 code units. *)
Definition jsstring : Type := list N.

(** The code units of an ASCII literal. *)
Fixpoint lit (s : string) : jsstring :=
  match s with
  | EmptyString => []
  | String c t => N_of_ascii c :: lit t
  end.

(** White space and line terminators, as [String.prototype.trim] strips
    them. *)
Definition isWhiteSpace (c : N) : bool :=
  ((c =? 9) || (c =? 10) || (c =? 11) || (c =? 12) || (c =? 13) || (c =? 32)
   || (c =? 160) || (c =? 5760) || ((8192 <=? c) && (c <=? 8202))
   || (c =? 8232) || (c =? 8233) || (c =? 8239) || (c =? 8287)
   || (c =? 12288) || (c =? 65279))%N.

Fixpoint trimStart (s : jsstring) : jsstring :=
  match s with
  | [] => []
  | c :: t => if isWhiteSpace c then trimStart t else s
  end.

(** [s.trim()] *)
Definition trim (s : jsstring) : jsstring :=
  rev (trimStart (rev (trimStart s))).

(** A string is truthy when it is not empty. *)
Definition truthy (s : jsstring) : bool :=
  match s with [] => false | _ => true end.

Inductive Sender := user | bot.

Record Message := {
  id : Z;
  text : jsstring;
  sender : Sender;
  timestamp : Z
}.

Inductive ReadyState := CONNECTING | OPEN | CLOSING | CLOSED.

Inductive ConnectionStatus := connecting | connected | disconnected.

(** What crossed a socket: a frame handed to [send], or a frame delivered to
    [onmessage]; the number names the socket, in order of creation. *)
Inductive Traffic :=
| Out (socket : nat) (data : jsstring)
| In (socket : nat) (data : jsstring).

Record State := {
  isOpen : bool;
  messages : list Message;
  inputValue : jsstring;
  isLoading : bool;
  connectionStatus : ConnectionStatus;
  (** every socket the component created, with its ready state *)
  sockets : list ReadyState;
  (** [ws.current] *)
  ws : option nat;
  (** everything sent and received so far, oldest first *)
  wire : list Traffic
}.

Definition setMessages (f : list Message -> list Message) (st : State) : State :=
  {| isOpen := isOpen st; messages := f (messages st); inputValue := inputValue st;
     isLoading := isLoading st; connectionStatus := connectionStatus st;
     sockets := sockets st; ws := ws st; wire := wire st |}.
Definition setInputValue (v : jsstring) (st : State) : State :=
  {| isOpen := isOpen st; messages := messages st; inputValue := v;
     isLoading := isLoading st; connectionStatus := connectionStatus st;
     sockets := sockets st; ws := ws st; wire := wire st |}.
Definition setIsLoading (v : bool) (st : State) : State :=
  {| isOpen := isOpen st; messages := messages st; inputValue := inputValue st;
     isLoading := v; connectionStatus := connectionStatus st;
     sockets := sockets st; ws := ws st; wire := wire st |}.
Definition setConnectionStatus (v : ConnectionStatus) (st : State) : State :=
  {| isOpen := isOpen st; messages := messages st; inputValue := inputValue st;
     isLoading := isLoading st; connectionStatus := v;
     sockets := sockets st; ws := ws st; wire := wire st |}.
Definition setIsOpen (v : bool) (st : State) : State :=
  {| isOpen := v; messages := messages st; inputValue := inputValue st;
     isLoading := isLoading st; connectionStatus := connectionStatus st;
     sockets := sockets st; ws := ws st; wire := wire st |}.
Definition setReadyState (i : nat) (r : ReadyState) (st : State) : State :=
  {| isOpen := isOpen st; messages := messages st; inputValue := inputValue st;
     isLoading := isLoading st; connectionStatus := connectionStatus st;
     sockets := <[i := r]> (sockets st); ws := ws st; wire := wire st |}.
Definition logTraffic (t : Traffic) (st : State) : State :=
  {| isOpen := isOpen st; messages := messages st; inputValue := inputValue st;
     isLoading := isLoading st; connectionStatus := connectionStatus st;
     sockets := sockets st; ws := ws st; wire := wire st ++ [t] |}.

(** [new WebSocket(...)] stored in [ws.current]. *)
Definition newSocket (st : State) : State :=
  {| isOpen := isOpen st; messages := messages st; inputValue := inputValue st;
     isLoading := isLoading st; connectionStatus := connectionStatus st;
     sockets := sockets st ++ [CONNECTING]; ws := Some (length (sockets st));
     wire := wire st |}.

(** [ws.current?.readyState] *)
Definition readyState (st : State) : option ReadyState :=
  i ← ws st; sockets st !! i.

(** [ws.current && ws.current.readyState === WebSocket.OPEN] *)
Definition channelOpen (st : State) : bool :=
  match readyState st with Some OPEN => true | _ => false end.

Definition connectWebSocket (st : State) : State :=
  if channelOpen st then st
  else newSocket (setConnectionStatus connecting st).

(** The handlers installed on socket [i], each run after the browser has
    moved the socket to its new ready state. *)
Definition onopen (i : nat) (st : State) : State :=
  setConnectionStatus connected (setReadyState i OPEN st).

Definition onmessage (now : Z) (i : nat) (data : jsstring) (st : State) : State :=
  setIsLoading false
    (setMessages (fun prev => prev ++ [ {| id := now; text := data; sender := bot;
                                           timestamp := now |} ])
       (logTraffic (In i data) st)).

Definition onclose (i : nat) (st : State) : State :=
  setConnectionStatus disconnected (setReadyState i CLOSED st).

Definition onerror (i : nat) (st : State) : State :=
  setConnectionStatus disconnected st.

(** The warning shown in place of a reply: U+26A0 U+FE0F and the text. *)
Definition warningText : jsstring :=
  [9888%N; 65039%N] ++ lit " Disconnected. Reconnecting...".

(** [now] is the value of [Date.now()] when the handler runs; the clock is
    read as standing still while it does. *)
Definition handleSendMessage (now : Z) (st : State) : State :=
  if negb (truthy (trim (inputValue st))) || isLoading st then st
  else
    let userMsg := {| id := now; text := inputValue st; sender := user;
                      timestamp := now |} in
    let st1 := setIsLoading true
                 (setInputValue []
                    (setMessages (fun prev => prev ++ [userMsg]) st)) in
    if channelOpen st1 then
      match ws st1 with
      | Some i => logTraffic (Out i (text userMsg)) st1
      | None => st1
      end
    else
      connectWebSocket
        (setIsLoading false
           (setMessages (fun prev => prev ++ [ {| id := now + 1; text := warningText;
                                                  sender := bot; timestamp := now |} ])
              st1)).

Definition INTRO_MESSAGE (now : Z) : Message :=
  {| id := 1;
     text := lit "Hello! I'm your AI process assistant. How can I help you optimize your workflow today?";
     sender := bot;
     timestamp := now |}.

(** The component after its first render and its mount effect. *)
Definition mounted (now : Z) : State :=
  connectWebSocket
    {| isOpen := false; messages := [INTRO_MESSAGE now]; inputValue := [];
       isLoading := false; connectionStatus := connecting;
       sockets := []; ws := None; wire := [] |}.

(** Everything that can happen to the mounted component. *)
Inductive Event :=
| Typed (v : jsstring)
| Submit (now : Z)
| Reconnect
| ClearChat (now : Z)
| Toggle
| Opened (i : nat)
| Frame (now : Z) (i : nat) (data : jsstring)
| Closed (i : nat)
| Errored (i : nat).

Definition step (e : Event) (st : State) : State :=
  match e with
  | Typed v => setInputValue v st
  | Submit now => handleSendMessage now st
  | Reconnect => connectWebSocket st
  | ClearChat now => setMessages (fun _ => [INTRO_MESSAGE now]) st
  | Toggle => setIsOpen (negb (isOpen st)) st
  | Opened i => onopen i st
  | Frame now i data => onmessage now i data st
  | Closed i => onclose i st
  | Errored i => onerror i st
  end.

Definition run (es : list Event) (st : State) : State :=
  fold_left (fun s e => step e s) es st.

(** *** Reference notions *)

(** Only white space, or nothing at all. *)
Definition blank (s : jsstring) : Prop := Forall (fun c => isWhiteSpace c = true) s.

(** The frames sent since the last frame received. *)
Fixpoint outstanding (w : list Traffic) : nat :=
  match w with
  | [] => 0
  | Out _ _ :: rest => S (outstanding rest)
  | In _ _ :: rest => 0
  end.

Definition unanswered (st : State) : nat := outstanding (rev (wire st)).

(** A frame that was sent and not yet answered keeps the loading flag set. *)
Definition oneAtATime (st : State) : Prop :=
  unanswered st = 0 \/ (unanswered st = 1 /\ isLoading st = true).

(** A component that has been typed into, and one whose only socket has
    opened and that waits for the reply to a first message. *)
Definition typed (v : string) : State := step (Typed (lit v)) (mounted 0).

Definition waiting : State :=
  run [Opened 0; Typed (lit "hello"); Submit 5] (mounted 0).

(** A component whose first socket was replaced while it was still
    connecting: both sockets have opened, and the replaced one has closed
    since.  The status shown is that of the socket whose handler ran last,
    and [ws.current] is the other one. *)
Definition outdated : State :=
  run [Reconnect; Opened 0; Opened 1; Closed 0; Typed (lit "hello")] (mounted 0).

(** The events that reset the history. *)
Definition isClear (e : Event) : bool :=
  match e with ClearChat _ => true | _ => false end.

(** The frames handed to a socket, oldest first. *)
Definition sent (w : list Traffic) : list jsstring :=
  omap (fun t => match t with Out _ data => Some data | In _ _ => None end) w.

(** [ws.current] is the socket created last. *)
Definition newest (st : State) : Prop :=
  1 <= length (sockets st) /\ ws st = Some (length (sockets st) - 1).

(** A component whose only socket has opened and whose input holds a text. *)
Definition ready : State := run [Opened 0; Typed (lit "hello")] (mounted 0).

(** The texts of the user's messages in the history, oldest first. *)
Definition userTexts (ms : list Message) : list jsstring :=
  map text (List.filter (fun m => match sender m with user => true | bot => false end) ms).

(** Every frame handed to a socket is the text of a user message of the
    history, in the same order. *)
Definition shown (st : State) : Prop :=
  sent (wire st) `sublist_of` userTexts (messages st).

End Chatbot.

(* ===================================================================== *)
(** ** config/api.ts *)
(* ===================================================================== *)

Module Config.

(** [s.replace(/^pat/, rep)] for a pattern of plain characters: the pattern
    is looked for at the start of the string only. *)
Definition replaceAtStart (s pat rep : string) : string :=
  if String.prefix pat s
  then rep ++ String.substring (String.length pat)
                               (String.length s - String.length pat) s
  else s.

(** [a || b] on strings that may be undefined: undefined and the empty
    string are falsy. *)
Definition orElse (a : option string) (b : string) : string :=
  match a with
  | Some s => if String.eqb s EmptyString then b else s
  | None => b
  end.

(** [API_BASE], from [import.meta.env.VITE_API_URL], [import.meta.env.MODE]
    and [window.location.origin]. *)
Definition API_BASE (viteApiUrl : option string) (mode origin : string) : string :=
  orElse viteApiUrl
    (if String.eqb mode "production" then origin else "http://localhost:8000").

(** [WS_URL], as computed from [API_BASE]. *)
Definition WS_URL (apiBase : string) : string :=
  replaceAtStart (replaceAtStart apiBase "http" "ws") "https" "wss".

End Config.

(* ===================================================================== *)
(** ** Facts about the JavaScript primitives *)
(* ===================================================================== *)

Module JSFacts.

Lemma concat_perm {A} (l1 l2 : list (list A)) :
  l1 ≡ₚ l2 -> concat l1 ≡ₚ concat l2.
Proof.
  induction 1 as [|x l l' _ IH|x y l|l l' l'' _ IH1 _ IH2]; simpl.
  - reflexivity.
  - by rewrite IH.
  - rewrite !app_assoc. f_equiv. apply Permutation_app_comm.
  - by etransitivity.
Qed.

Lemma insertIndexed_perm {V} n (kv : string * V) l :
  JS.insertIndexed n kv l ≡ₚ (n, kv) :: l.
Proof.
  induction l as [|[m kv'] l IH]; simpl; [done|].
  destruct (n <=? m)%N; [done|].
  rewrite IH. apply perm_swap.
Qed.

(** Enumeration reorders the properties and neither drops nor repeats one. *)
Lemma entries_perm {V} (o : JS.object V) : JS.entries o ≡ₚ o.
Proof.
  unfold JS.entries. induction o as [|kv o IH]; simpl; [done|].
  destruct (JS.arrayIndex kv.1).
  - rewrite insertIndexed_perm. simpl. by rewrite IH.
  - rewrite <- Permutation_middle. by rewrite IH.
Qed.

(** Without array-index keys, enumeration is creation order. *)
Lemma entries_named {V} (o : JS.object V) :
  Forall (fun kv => JS.arrayIndex kv.1 = None) o -> JS.entries o = o.
Proof.
  intros H. unfold JS.entries.
  assert (JS.indexed o = [] /\ JS.named o = o) as [-> ->]; [|done].
  induction H as [|kv o Hkv _ [IH1 IH2]]; simpl; [done|].
  rewrite Hkv. by rewrite IH1, IH2.
Qed.

Lemma values_perm {V} (o : JS.object V) : JS.values o ≡ₚ o.*2.
Proof. unfold JS.values. by rewrite entries_perm. Qed.

(** Writing a property replaces what reading it gave. *)
Lemma define_replaces {A} (o : JS.object (list A)) k old v :
  JS.get o k = Some old ->
  old ++ concat (JS.define o k v).*2 ≡ₚ v ++ concat o.*2.
Proof.
  induction o as [|[k' v'] o IH]; simpl; [done|].
  destruct (String.eqb k' k).
  - intros [= ->]. simpl. apply Permutation_app_swap_app.
  - intros Hget. simpl. specialize (IH Hget).
    rewrite (Permutation_app_swap_app old), IH.
    apply Permutation_app_swap_app.
Qed.

Lemma define_creates {A} (o : JS.object (list A)) k v :
  JS.get o k = None ->
  concat (JS.define o k v).*2 ≡ₚ v ++ concat o.*2.
Proof.
  induction o as [|[k' v'] o IH]; simpl; [by rewrite app_nil_r|].
  destruct (String.eqb k' k); [done|].
  intros Hget. simpl. rewrite (IH Hget).
  apply Permutation_app_swap_app.
Qed.

Lemma define_other {V} (o : JS.object V) k v k' :
  k' <> k -> JS.get (JS.define o k v) k' = JS.get o k'.
Proof.
  intros Hne. induction o as [|[k0 v0] o IH]; simpl.
  - destruct (String.eqb_spec k k'); congruence.
  - destruct (String.eqb_spec k0 k) as [->|]; simpl.
    + destruct (String.eqb_spec k k'); congruence.
    + by rewrite IH.
Qed.

Lemma define_same {V} (o : JS.object V) k v :
  JS.get (JS.define o k v) k = Some v.
Proof.
  induction o as [|[k0 v0] o IH]; simpl.
  - by rewrite String.eqb_refl.
  - destruct (String.eqb_spec k0 k) as [->|Hne]; simpl.
    + by rewrite String.eqb_refl.
    + destruct (String.eqb_spec k0 k); [done|]. apply IH.
Qed.

Lemma define_keys_existing {V} (o : JS.object V) k v :
  is_Some (JS.get o k) -> JS.keys (JS.define o k v) = JS.keys o.
Proof.
  unfold JS.keys. induction o as [|[k0 v0] o IH]; simpl.
  - by intros [? ?].
  - destruct (String.eqb_spec k0 k); simpl; [done|].
    intros H. by rewrite IH.
Qed.

Lemma define_keys_in {V} (o : JS.object V) k v x :
  x ∈ JS.keys (JS.define o k v) -> x = k \/ x ∈ JS.keys o.
Proof.
  unfold JS.keys. induction o as [|[k' v'] o IH]; simpl.
  - intros H. apply list_elem_of_singleton in H. by left.
  - destruct (String.eqb k' k); simpl; [by right|].
    intros H. apply elem_of_cons in H as [->|H].
    + right. by left.
    + destruct (IH H) as [->|?]; [by left|]. right. by right.
Qed.

Lemma define_keys_NoDup {V} (o : JS.object V) k v :
  NoDup (JS.keys o) -> NoDup (JS.keys (JS.define o k v)).
Proof.
  unfold JS.keys. induction o as [|[k' v'] o IH]; simpl.
  - intros _. apply NoDup_singleton.
  - intros H. apply NoDup_cons in H as [Hk H].
    destruct (String.eqb_spec k' k) as [->|Hne]; simpl.
    + by apply NoDup_cons.
    + apply NoDup_cons. split; [|by apply IH].
      intros Hin. apply (define_keys_in o k v k') in Hin as [?|?]; done.
Qed.

Lemma filter_keys_NoDup {V} (f : string * V -> bool) (l : list (string * V)) :
  NoDup l.*1 -> NoDup (List.filter f l).*1.
Proof.
  induction l as [|x l IH]; simpl; [done|].
  intros H. apply NoDup_cons in H as [Hx H].
  destruct (f x); simpl; [|by apply IH].
  apply NoDup_cons. split; [|by apply IH].
  intros Hin. apply Hx.
  apply list_elem_of_fmap in Hin as (y & -> & Hy).
  apply list_elem_of_fmap. exists y. split; [done|].
  apply list_elem_of_In in Hy. apply filter_In in Hy as [Hy _].
  by apply list_elem_of_In.
Qed.

(** The keys come out of the enumeration once each. *)
Lemma entries_keys_NoDup {V} (o : JS.object V) :
  NoDup (JS.keys o) -> NoDup (JS.entries o).*1.
Proof. unfold JS.keys. by rewrite entries_perm. Qed.

Lemma read_cases {V} (o : JS.object V) k :
  match JS.read o k with
  | JS.Own v => JS.get o k = Some v
  | JS.Inherited => JS.get o k = None /\ JS.inherits k = true
  | JS.Undefined => JS.get o k = None /\ JS.inherits k = false
  end.
Proof. unfold JS.read. destruct (JS.get o k); [done|]. by destruct (JS.inherits k). Qed.

(** Assignment writes the own property, unless it meets the accessor
    [__proto__]. *)
Lemma set_define {V} (o : JS.object V) k v :
  is_Some (JS.get o k) \/ k <> "__proto__" -> JS.set o k v = JS.define o k v.
Proof.
  unfold JS.set. intros [[old ->]|Hne]; [done|].
  destruct (JS.get o k); [done|]. by destruct (String.eqb_spec k "__proto__").
Qed.

Lemma set_not_inherited {V} (o : JS.object V) k v :
  JS.read o k <> JS.Inherited -> JS.set o k v = JS.define o k v.
Proof.
  intros Hr. apply set_define. pose proof (read_cases o k) as H.
  destruct (JS.read o k) as [old| |]; [left; by eexists|done|].
  right. intros ->. by destruct H.
Qed.

Lemma set_proto {V} (o : JS.object V) v :
  JS.get o "__proto__" = None -> JS.set o "__proto__" v = o.
Proof. unfold JS.set. by intros ->. Qed.


End JSFacts.

(* ===================================================================== *)
(** ** Facts of binary64 arithmetic *)
(* ===================================================================== *)

Module FloatFacts.

(** Dividing a finite number by 1 is exact: the quotient of the mantissas
    needs no rounding. *)
Lemma SFdiv_one s m e :
  bounded prec emax m e = true ->
  SFdiv prec emax (S754_finite s m e) (Prim2SF 1) = S754_finite s m e.
Proof.
  intros Hb.
  change (Prim2SF 1) with (S754_finite false 4503599627370496 (-52)).
  unfold bounded, canonical_mantissa in Hb.
  apply andb_prop in Hb as [Hc He].
  apply Z.eqb_eq in Hc. apply Z.leb_le in He.
  unfold fexp, SpecFloat.emin in Hc.
  change prec with 53%Z in *. change emax with 1024%Z in *.
  set (d := Zpos (digits2_pos m)) in *.
  assert (0 < d)%Z as Hd by (subst d; lia).
  unfold SFdiv, SFdiv_core_binary. rewrite Bool.xorb_false_r.
  change (Zdigits2 (Zpos m)) with d.
  change (Zdigits2 4503599627370496) with 53%Z.
  unfold fexp, SpecFloat.emin.
  destruct (Z_lt_le_dec (-1074) e) as [Hn|Hs].
  - assert (d = 53)%Z as Hd53 by lia.
    replace (Z.min _ _) with (e - 1)%Z by lia.
    replace (e - -52 - (e - 1))%Z with 53%Z by lia.
    cbv beta iota zeta.
    rewrite Z.shiftl_mul_pow2 by lia.
    destruct (Z.div_eucl _ _) as [q r] eqn:E.
    assert (q = Zpos m~0 /\ r = 0%Z) as [-> ->].
    { assert ((Z.pos m * 2 ^ 53 / 4503599627370496)%Z = q) as Hq
        by (unfold Z.div; now rewrite E).
      assert ((Z.pos m * 2 ^ 53 mod 4503599627370496)%Z = r) as Hr
        by (unfold Z.modulo; now rewrite E).
      subst q r. change (2 ^ 53)%Z with (2 * 4503599627370496)%Z.
      rewrite Z.mul_assoc. rewrite Z.div_mul, Z.mod_mul by lia.
      split; [lia|reflexivity]. }
    change (new_location 4503599627370496%Z 0%Z) with loc_Exact.
    unfold binary_round_aux, shr_fexp.
    assert (Zdigits2 (Zpos m~0) = d + 1)%Z as -> by (unfold d; simpl; lia).
    unfold fexp, SpecFloat.emin.
    replace (Z.max _ _ - (e - 1))%Z with 1%Z by lia.
    cbn [shr shr_record_of_loc SpecFloat.iter_pos shr_1 shr_m loc_of_shr_record
         round_nearest_even orb].
    change (Zdigits2 (Zpos m)) with d.
    replace (Z.max _ _ - (e - 1 + 1))%Z with 0%Z by lia.
    cbn [shr shr_m shr_record_of_loc].
    replace (e - 1 + 1)%Z with e by lia.
    apply Z.leb_le in He. change (1024 - 53)%Z with 971%Z.
    change (1024 - 53)%Z with 971%Z in He.
    rewrite He. reflexivity.
  - assert (e = -1074)%Z as -> by lia.
    replace (Z.min _ _) with (-1074)%Z by lia.
    cbv beta iota zeta. change (-1074 - -52 - -1074)%Z with 52%Z. cbv beta iota zeta.
    rewrite Z.shiftl_mul_pow2 by lia.
    destruct (Z.div_eucl _ _) as [q r] eqn:E.
    assert (q = Zpos m /\ r = 0%Z) as [-> ->].
    { assert ((Z.pos m * 2 ^ 52 / 4503599627370496)%Z = q) as Hq
        by (unfold Z.div; now rewrite E).
      assert ((Z.pos m * 2 ^ 52 mod 4503599627370496)%Z = r) as Hr
        by (unfold Z.modulo; now rewrite E).
      subst q r. change (2 ^ 52)%Z with (4503599627370496)%Z.
      rewrite Z.div_mul, Z.mod_mul by lia. split; reflexivity. }
    change (new_location 4503599627370496%Z 0%Z) with loc_Exact.
    unfold binary_round_aux, shr_fexp.
    change (Zdigits2 (Zpos m)) with d.
    unfold fexp, SpecFloat.emin.
    replace (Z.max _ _ - -1074)%Z with 0%Z by lia.
    cbn [shr shr_record_of_loc SpecFloat.iter_pos shr_1 shr_m loc_of_shr_record
         round_nearest_even orb].
    change (Zdigits2 (Zpos m)) with d.
    replace (Z.max _ _ - -1074)%Z with 0%Z by lia.
    cbn [shr shr_m shr_record_of_loc].
    reflexivity.
Qed.

(** [x / 1] is [x], for every number, infinite or not a number included. *)
Lemma div_one x : (x / 1)%float = x.
Proof.
  apply Prim2SF_inj. rewrite div_spec. unfold SF64div.
  pose proof (Prim2SF_valid x) as Hv.
  destruct (Prim2SF x) as [s|s| |s m e] eqn:E.
  - now destruct s.
  - now destruct s.
  - reflexivity.
  - now apply SFdiv_one.
Qed.

(** [0 + x] is [x], but for the negative zero, whose sum with 0 is 0. *)
Lemma zero_add x : x <> neg_zero -> (0 + x)%float = x.
Proof.
  intros Hx. apply Prim2SF_inj. rewrite add_spec. unfold SF64add.
  change (Prim2SF 0) with (S754_zero false).
  destruct (Prim2SF x) as [s|s| |s m e] eqn:E; try reflexivity.
  destruct s; [|reflexivity].
  exfalso. apply Hx. apply Prim2SF_inj. now rewrite E.
Qed.



End FloatFacts.

(* ===================================================================== *)
(** ** The assignment ledger of the workforce page *)
(* ===================================================================== *)

Module LedgerFacts.
Import Workforce.

Lemma workers_flat (l : Ledger) :
  workers l ≡ₚ availableStaff l ++ concat (assignments l).*2.
Proof.
  unfold workers. f_equiv. apply JSFacts.concat_perm, JSFacts.values_perm.
Qed.

(** Pool to process: the worker leaves the pool and joins the staff. *)
Lemma assign_perm (pool : list Employee) o i e k :
  pool !! i = Some e ->
  JS.splice_remove i pool
    ++ concat (JS.define o k (default [] (JS.get o k) ++ [e])).*2
  ≡ₚ pool ++ concat o.*2.
Proof.
  intros Hi. unfold JS.splice_remove.
  rewrite (delete_Permutation pool i e Hi) at 2.
  destruct (JS.get o k) as [old|] eqn:Hget; simpl.
  - apply (Permutation_app_inv_l old).
    transitivity (delete i pool ++ old ++ concat (JS.define o k (old ++ [e])).*2);
      [solve_Permutation|].
    rewrite (JSFacts.define_replaces o k old _ Hget). solve_Permutation.
  - rewrite (JSFacts.define_creates o k _ Hget). solve_Permutation.
Qed.

(** Process to pool: the worker leaves the staff and joins the pool. *)
Lemma unassign_perm (pool : list Employee) o i e k :
  default [] (JS.get o k) !! i = Some e ->
  (pool ++ [e])
    ++ concat (JS.define o k (JS.splice_remove i (default [] (JS.get o k)))).*2
  ≡ₚ pool ++ concat o.*2.
Proof.
  unfold JS.splice_remove.
  destruct (JS.get o k) as [old|] eqn:Hget; simpl; [|done].
  intros Hi. apply (Permutation_app_inv_l old).
  transitivity ((pool ++ [e]) ++ old ++ concat (JS.define o k (delete i old)).*2);
    [solve_Permutation|].
  rewrite (JSFacts.define_replaces o k old _ Hget).
  rewrite (delete_Permutation old i e Hi) at 2. solve_Permutation.
Qed.

Lemma uncaughtSince_app p p' thrown :
  uncaught (out p') = uncaught (out p) ++ thrown -> uncaughtSince p p' = thrown.
Proof. unfold uncaughtSince. intros ->. by rewrite drop_app_length. Qed.

(** What one drag does to the workers: it rearranges them, or, where the
    handler throws, the worker it took from the pool is in no sequence any
    more. *)
Lemma onDragEnd_accounts result p :
  let p' := onDragEnd result p in
  (uncaught (out p') = uncaught (out p) /\
   workers (ledger p') ≡ₚ workers (ledger p)) \/
  (exists w, uncaught (out p') = uncaught (out p) ++ [TypeError] /\
             workers (ledger p) ≡ₚ w :: workers (ledger p')).
Proof.
  intros p'. subst p'. rewrite !workers_flat. unfold onDragEnd.
  destruct (destination result) as [dest|]; [|by left].
  destruct (String.eqb _ _); [by left|].
  destruct (String.eqb _ _).
  - cbn [ledger setIsDragging with_scroll].
    destruct (_ !! _) as [e|] eqn:Hi; [|by left].
    destruct (JS.startsWith _ _); [|by left].
    destruct (JS.read _ _) as [old| |] eqn:Hr.
    + left. rewrite JSFacts.set_not_inherited by (by rewrite Hr).
      destruct (findProcess _ _); cbn; (split; [done|]); by apply assign_perm.
    + right. exists e. split; [done|].
      cbn [ledger raise with_out with_ledger setAvailableStaff setIsDragging with_scroll].
      rewrite !workers_flat. cbn [availableStaff assignments].
      unfold JS.splice_remove.
      change (e :: ?a ++ ?b) with ((e :: a) ++ b).
      by rewrite <- (delete_Permutation _ _ _ Hi).
    + left. rewrite JSFacts.set_not_inherited by (by rewrite Hr).
      destruct (findProcess _ _); cbn; (split; [done|]); by apply assign_perm.
  - destruct (JS.startsWith _ _); [|by left].
    cbn [ledger setIsDragging with_scroll].
    destruct (_ !! _) as [e|] eqn:Hi; [|by left].
    destruct (String.eqb _ _); [|by left].
    left. rewrite JSFacts.set_define.
    + cbn. split; [done|]. by apply unassign_perm.
    + left. destruct (JS.get _ _); [by eexists|]. simpl in Hi. by rewrite lookup_nil in Hi.
Qed.

(** A drag that does not throw conserves the workers. *)
Lemma onDragEnd_workers result p :
  uncaughtSince p (onDragEnd result p) = [] ->
  workers (ledger (onDragEnd result p)) ≡ₚ workers (ledger p).
Proof.
  intros Hnone. destruct (onDragEnd_accounts result p) as [[_ H]|(w & Hthrown & _)]; [done|].
  by rewrite (uncaughtSince_app _ _ _ Hthrown) in Hnone.
Qed.

Lemma removeFromProcess_workers k i p :
  workers (ledger (removeFromProcess k i p)) ≡ₚ workers (ledger p).
Proof.
  rewrite !workers_flat. unfold removeFromProcess.
  destruct (_ !! _) as [e|] eqn:Hi; [|done].
  cbn. by apply unassign_perm.
Qed.

Lemma removeFromProcess_uncaught k i p :
  uncaught (out (removeFromProcess k i p)) = uncaught (out p).
Proof. unfold removeFromProcess. by destruct (_ !! _). Qed.

(** Every event appends to the log of uncaught exceptions, and each
    exception it appends stands for one worker that left the ledger. *)
Lemma handle_accounts e p :
  exists thrown lost,
    uncaught (out (handle e p)) = uncaught (out p) ++ thrown /\
    length lost = length thrown /\
    workers (ledger (handle e p)) ++ lost ≡ₚ workers (ledger p).
Proof.
  destruct e as [result|k i]; simpl.
  - destruct (onDragEnd_accounts result p) as [[Hu Hw]|(w & Hu & Hw)].
    + exists [], []. by rewrite !app_nil_r.
    + exists [TypeError], [w]. split; [done|]. split; [done|].
      rewrite Hw. by rewrite <- Permutation_cons_append.
  - exists [], []. rewrite !app_nil_r, removeFromProcess_uncaught.
    split; [done|]. split; [done|]. apply removeFromProcess_workers.
Qed.

Lemma handleAll_accounts es : forall p,
  exists thrown lost,
    uncaught (out (handleAll es p)) = uncaught (out p) ++ thrown /\
    length lost = length thrown /\
    workers (ledger (handleAll es p)) ++ lost ≡ₚ workers (ledger p).
Proof.
  unfold handleAll. induction es as [|e es IH]; intros p; simpl.
  - exists [], []. by rewrite !app_nil_r.
  - destruct (handle_accounts e p) as (t1 & l1 & Hu1 & Hl1 & Hw1).
    destruct (IH (handle e p)) as (t2 & l2 & Hu2 & Hl2 & Hw2).
    exists (t1 ++ t2), (l2 ++ l1). split; [by rewrite Hu2, Hu1, app_assoc|].
    split; [rewrite !length_app; lia|].
    by rewrite app_assoc, Hw2.
Qed.

Lemma allInPool_workers l : allInPool l -> workers l ≡ₚ initialEmployees.
Proof.
  intros [Hpool Hempty]. rewrite workers_flat, Hpool.
  assert (concat (assignments l).*2 = []) as ->; [|by rewrite app_nil_r].
  induction Hempty as [|[k v] o Hv _ IH]; simpl in *; [done|]. by rewrite Hv.
Qed.

Lemma filter_length_perm {A} (f : A -> bool) (l1 l2 : list A) :
  l1 ≡ₚ l2 -> length (List.filter f l1) = length (List.filter f l2).
Proof.
  induction 1 as [|x l l' _ IH|x y l|l l' l'' _ IH1 _ IH2]; simpl.
  - done.
  - destruct (f x); simpl; by rewrite IH.
  - destruct (f x), (f y); done.
  - congruence.
Qed.

Lemma initial_ids_distinct : NoDup (id <$> initialEmployees).
Proof. apply (bool_decide_unpack _). by vm_compute. Qed.

Lemma initial_occurrences w :
  w ∈ initialEmployees ->
  length (List.filter (fun x => String.eqb (id x) (id w)) initialEmployees) = 1.
Proof.
  unfold initialEmployees. intros Hw.
  repeat (apply elem_of_cons in Hw as [->|Hw]; [reflexivity|]).
  by apply elem_of_nil in Hw.
Qed.

(** The handlers keep the keys of [assignments] distinct. *)
Lemma handle_keys_NoDup e p :
  NoDup (JS.keys (assignments (ledger p))) ->
  NoDup (JS.keys (assignments (ledger (handle e p)))).
Proof.
  intros H.
  assert (forall k v, NoDup (JS.keys (JS.set (assignments (ledger p)) k v))) as Hset.
  { intros k v. unfold JS.set. destruct (JS.get _ _);
      [by apply JSFacts.define_keys_NoDup|].
    destruct (String.eqb k "__proto__"); [done|by apply JSFacts.define_keys_NoDup]. }
  destruct e as [result|k i]; simpl.
  - unfold onDragEnd.
    destruct (destination result) as [dest|]; [|done].
    destruct (String.eqb _ _); [done|].
    destruct (String.eqb _ _).
    + cbn [ledger setIsDragging with_scroll].
      destruct (_ !! _) as [e|]; [|done].
      destruct (JS.startsWith _ _); [|done].
      destruct (JS.read _ _); [|done|];
        destruct (findProcess _ _); cbn; apply Hset.
    + destruct (JS.startsWith _ _); [|done].
      cbn [ledger setIsDragging with_scroll].
      destruct (_ !! _) as [e|]; [|done].
      destruct (String.eqb _ _); [|done].
      cbn. apply Hset.
  - unfold removeFromProcess.
    destruct (_ !! _) as [e|]; [|done].
    cbn. by apply JSFacts.define_keys_NoDup.
Qed.

Lemma loaded_allInPool : allInPool (ledger loaded).
Proof. split; [reflexivity|]. repeat constructor. Qed.

(** C2, and where the code leaves it.  The topology names a step
    [__proto__]; the page renders its droppable like any other, and all six
    workers are in the pool.  Alice is dragged from the head of the pool onto
    that step.  The handler takes her out of the pool and then throws: the
    state reached has five workers, Alice's id occurs in no sequence, no toast
    is shown and no location has changed. *)
Theorem drop_on_proto_loses_worker :
  let result := gesture "employee-pool" 0 (droppableOf "__proto__") 0 in
  let p' := handle (Drag result) protoLoaded in
  allInPool (ledger protoLoaded) /\
  reachable p' /\
  findProcess (processes protoLoaded) "__proto__" <> None /\
  availableStaff (ledger protoLoaded) !! 0 = Some alice /\
  uncaughtSince protoLoaded p' = [TypeError] /\
  occurrences (id alice) (ledger p') = 0 /\
  length (workers (ledger p')) = 5 /\
  assignments (ledger p') = assignments (ledger protoLoaded) /\
  toastsSince protoLoaded p' = [].
Proof.
  assert (allInPool (ledger protoLoaded)) as Hinit.
  { split; [reflexivity|]. repeat constructor. }
  split; [done|]. split; [by apply reachable_step, reachable_init|].
  repeat split; try reflexivity. discriminate.
Qed.

End LedgerFacts.

(* ===================================================================== *)
(** ** What a drag gesture does to the sequences *)
(* ===================================================================== *)

Module GestureFacts.

Lemma splice_insert_length {A} i (x : A) l :
  length (JS.splice_insert i x l) = S (length l).
Proof.
  unfold JS.splice_insert.
  by rewrite length_app, length_cons, Nat.add_succ_r, <- length_app, take_drop.
Qed.

Lemma splice_insert_lookup {A} i (x : A) l :
  i <= length l -> JS.splice_insert i x l !! i = Some x.
Proof.
  intros Hi. unfold JS.splice_insert.
  rewrite lookup_app_r by (rewrite length_take; lia).
  rewrite length_take, Nat.min_l, Nat.sub_diag by lia. done.
Qed.

Lemma splice_insert_perm {A} i (x : A) l : JS.splice_insert i x l ≡ₚ x :: l.
Proof.
  unfold JS.splice_insert. rewrite <- Permutation_middle. by rewrite take_drop.
Qed.

Lemma splice_remove_length {A} i (x : A) l :
  l !! i = Some x -> S (length (JS.splice_remove i l)) = length l.
Proof.
  intros Hi. unfold JS.splice_remove.
  rewrite length_delete by eauto. apply lookup_lt_Some in Hi. lia.
Qed.

(** *** The two-list component *)

Section TwoLists.
Import Allocation.

Lemma move_between_lists st result dest w :
  destination result = Some dest ->
  isList (droppableId (source result)) -> isList (droppableId dest) ->
  droppableId (source result) <> droppableId dest ->
  listOf st (droppableId (source result)) !! index (source result) = Some w ->
  exists st',
    onDragEnd result st = Some st' /\
    listOf st' (droppableId (source result))
      = JS.splice_remove (index (source result))
          (listOf st (droppableId (source result))) /\
    listOf st' (droppableId dest)
      = JS.splice_insert (index dest) w (listOf st (droppableId dest)) /\
    availableStaff st' ++ assignedStaff st' ≡ₚ availableStaff st ++ assignedStaff st.
Proof.
  intros Hdest Hsrc Hdst Hne Hw. unfold onDragEnd. rewrite Hdest.
  destruct (String.eqb_spec (droppableId (source result)) (droppableId dest)); [done|].
  rewrite Hw.
  destruct Hsrc as [Hs|Hs], Hdst as [Hd|Hd]; rewrite Hs, Hd in *; try done;
    simpl in *; eexists; (split; [done|]); simpl; (split; [done|]); (split; [done|]).
  - rewrite splice_insert_perm. unfold JS.splice_remove.
    rewrite <- Permutation_middle.
    change (w :: ?a ++ ?b) with ((w :: a) ++ b).
    by rewrite <- (delete_Permutation _ _ _ Hw).
  - rewrite splice_insert_perm. unfold JS.splice_remove.
    rewrite (Permutation_app_comm (w :: _)), <- Permutation_middle.
    change (w :: ?a ++ ?b) with ((w :: a) ++ b).
    rewrite <- (delete_Permutation _ _ _ Hw). apply Permutation_app_comm.
Qed.

Lemma reorder_within_list st result dest w :
  destination result = Some dest ->
  droppableId (source result) = droppableId dest ->
  listOf st (droppableId dest) !! index (source result) = Some w ->
  exists st',
    onDragEnd result st = Some st' /\
    listOf st' (droppableId dest)
      = JS.splice_insert (index dest) w
          (JS.splice_remove (index (source result)) (listOf st (droppableId dest))) /\
    length (listOf st' (droppableId dest)) = length (listOf st (droppableId dest)) /\
    (forall other,
        String.eqb other "available" <> String.eqb (droppableId dest) "available" ->
        listOf st' other = listOf st other).
Proof.
  intros Hdest Heq Hw. unfold onDragEnd. rewrite Hdest, Heq, String.eqb_refl, Hw.
  eexists. split; [done|].
  assert (forall items, listOf (setList (droppableId dest) items st) (droppableId dest)
                        = items) as Hread.
  { intros items. unfold listOf, setList.
    by destruct (String.eqb (droppableId dest) "available"). }
  rewrite Hread. split; [done|]. split.
  - rewrite splice_insert_length. by eapply splice_remove_length.
  - intros other Hother. unfold listOf, setList.
    destruct (String.eqb (droppableId dest) "available"),
             (String.eqb other "available"); done.
Qed.

End TwoLists.

(** *** The workforce page *)

Section Page.
Import Workforce.

Lemma process_not_pool d : isProcess d -> String.eqb d "employee-pool" = false.
Proof. intros [Hne _]. by destruct (String.eqb_spec d "employee-pool"). Qed.

Lemma sequenceAt_process l d :
  isProcess d ->
  sequenceAt l d = default [] (JS.get (assignments l) (JS.replace d "process-" EmptyString)).
Proof.
  intros Hd. unfold sequenceAt. rewrite (process_not_pool d Hd).
  destruct Hd as [_ ->]. done.
Qed.

Lemma sequenceAt_pool l : sequenceAt l "employee-pool" = availableStaff l.
Proof. reflexivity. Qed.

Lemma pool_to_process p result dest w :
  destination result = Some dest ->
  droppableId (source result) = "employee-pool" ->
  isProcess (droppableId dest) ->
  JS.read (assignments (ledger p)) (JS.replace (droppableId dest) "process-" EmptyString)
    <> JS.Inherited ->
  sequenceAt (ledger p) "employee-pool" !! index (source result) = Some w ->
  let p' := onDragEnd result p in
  sequenceAt (ledger p') "employee-pool"
    = JS.splice_remove (index (source result)) (sequenceAt (ledger p) "employee-pool") /\
  sequenceAt (ledger p') (droppableId dest)
    = sequenceAt (ledger p) (droppableId dest) ++ [w] /\
  uncaughtSince p p' = [].
Proof.
  intros Hdest Hsrc Hd Hr Hw p'. subst p'.
  rewrite !(sequenceAt_process _ _ Hd), !sequenceAt_pool in *.
  unfold uncaughtSince, onDragEnd. rewrite Hdest, Hsrc.
  rewrite String.eqb_sym, (process_not_pool _ Hd).
  cbn [String.eqb Ascii.eqb Bool.eqb ledger setIsDragging with_scroll].
  rewrite Hw. destruct Hd as [_ ->].
  rewrite (JSFacts.set_not_inherited _ _ _ Hr).
  destruct (JS.read _ _); [|done|];
    destruct (findProcess _ _); simpl; by rewrite JSFacts.define_same, drop_all.
Qed.

Lemma process_to_pool p result dest w :
  destination result = Some dest ->
  isProcess (droppableId (source result)) ->
  droppableId dest = "employee-pool" ->
  sequenceAt (ledger p) (droppableId (source result)) !! index (source result) = Some w ->
  let p' := onDragEnd result p in
  sequenceAt (ledger p') (droppableId (source result))
    = JS.splice_remove (index (source result))
        (sequenceAt (ledger p) (droppableId (source result))) /\
  sequenceAt (ledger p') "employee-pool"
    = sequenceAt (ledger p) "employee-pool" ++ [w] /\
  uncaughtSince p p' = [].
Proof.
  intros Hdest Hs Hdst Hw p'. subst p'.
  rewrite !(sequenceAt_process _ _ Hs), !sequenceAt_pool in *.
  unfold uncaughtSince, onDragEnd. rewrite Hdest, Hdst, (process_not_pool _ Hs).
  destruct Hs as [_ ->].
  cbn [String.eqb Ascii.eqb Bool.eqb ledger setIsDragging with_scroll].
  rewrite Hw. rewrite JSFacts.set_define.
  - simpl. by rewrite JSFacts.define_same, drop_all.
  - left. destruct (JS.get _ _); [by eexists|]. simpl in Hw. by rewrite lookup_nil in Hw.
Qed.

Lemma process_to_process p result dest :
  destination result = Some dest ->
  isProcess (droppableId (source result)) ->
  droppableId dest <> "employee-pool" ->
  onDragEnd result p = setIsDragging false p.
Proof.
  intros Hdest Hs Hd. unfold onDragEnd. rewrite Hdest.
  destruct (String.eqb _ _); [done|].
  rewrite (process_not_pool _ Hs). destruct Hs as [_ ->].
  destruct (_ !! _); [|done].
  by destruct (String.eqb_spec (droppableId dest) "employee-pool").
Qed.

Lemma same_droppable_ignored p result dest :
  destination result = Some dest ->
  droppableId (source result) = droppableId dest ->
  ledger (onDragEnd result p) = ledger p.
Proof.
  intros Hdest Heq. unfold onDragEnd. by rewrite Hdest, Heq, String.eqb_refl.
Qed.

End Page.

(** C4, as the code has it.  In the two-list component a move between the
    two lists takes the worker out of the source list and puts it into the
    other list at the destination index of the gesture, in one step that
    conserves the workers.  On the workforce page only a move between the pool
    and a process location moves the worker: it leaves the source sequence
    and lands at the end of the destination sequence, whatever the
    destination index is, in one step that conserves the workers; for a drop
    on a process this is so when the process id, read from the assignments,
    is an own key or undefined, and not a member inherited from
    [Object.prototype].  A move from a process location to anything but the
    pool, another process location included, is ignored. *)
Theorem cross_location_move :
  (forall (st : Allocation.State) (result : Allocation.DropResult)
          (dest : Allocation.Location) (w : Allocation.Employee),
      let src := Allocation.source result in
      Allocation.destination result = Some dest ->
      Allocation.isList (Allocation.droppableId src) ->
      Allocation.isList (Allocation.droppableId dest) ->
      Allocation.droppableId src <> Allocation.droppableId dest ->
      Allocation.listOf st (Allocation.droppableId src) !! Allocation.index src = Some w ->
      exists st',
        Allocation.onDragEnd result st = Some st' /\
        Allocation.listOf st' (Allocation.droppableId src)
          = JS.splice_remove (Allocation.index src)
              (Allocation.listOf st (Allocation.droppableId src)) /\
        Allocation.listOf st' (Allocation.droppableId dest)
          = JS.splice_insert (Allocation.index dest) w
              (Allocation.listOf st (Allocation.droppableId dest)) /\
        (Allocation.index dest <= length (Allocation.listOf st (Allocation.droppableId dest)) ->
         Allocation.listOf st' (Allocation.droppableId dest) !! Allocation.index dest
           = Some w) /\
        Allocation.availableStaff st' ++ Allocation.assignedStaff st'
          ≡ₚ Allocation.availableStaff st ++ Allocation.assignedStaff st) /\
  (forall (p : Workforce.Page) (result : Workforce.DropResult)
          (dest : Workforce.Location) (w : Workforce.Employee),
      let src := Workforce.source result in
      let from := Workforce.droppableId src in
      let to := Workforce.droppableId dest in
      Workforce.destination result = Some dest ->
      Workforce.sequenceAt (Workforce.ledger p) from !! Workforce.index src = Some w ->
      let p' := Workforce.onDragEnd result p in
      ((from = "employee-pool" /\ Workforce.isProcess to /\
        JS.read (Workforce.assignments (Workforce.ledger p))
                (JS.replace to "process-" EmptyString) <> JS.Inherited) \/
       (Workforce.isProcess from /\ to = "employee-pool") ->
         Workforce.sequenceAt (Workforce.ledger p') from
           = JS.splice_remove (Workforce.index src)
               (Workforce.sequenceAt (Workforce.ledger p) from) /\
         Workforce.sequenceAt (Workforce.ledger p') to
           = Workforce.sequenceAt (Workforce.ledger p) to ++ [w] /\
         Workforce.workers (Workforce.ledger p') ≡ₚ Workforce.workers (Workforce.ledger p) /\
         Workforce.uncaughtSince p p' = []) /\
      (Workforce.isProcess from /\ to <> "employee-pool" /\ from <> to ->
         Workforce.ledger p' = Workforce.ledger p /\
         Workforce.toastsSince p p' = [] /\
         Workforce.uncaughtSince p p' = [])).
Proof.
  split.
  - intros st result dest w src Hdest Hs Hd Hne Hw.
    destruct (move_between_lists st result dest w Hdest Hs Hd Hne Hw)
      as (st' & Hrun & Hsrc & Hdst & Hperm).
    exists st'. repeat split; try done.
    intros Hle. rewrite Hdst. by apply splice_insert_lookup.
  - intros p result dest w src from to Hdest Hw p'. split.
    + intros Hdir.
      assert (Workforce.sequenceAt (Workforce.ledger p') from
                = JS.splice_remove (Workforce.index src)
                    (Workforce.sequenceAt (Workforce.ledger p) from) /\
              Workforce.sequenceAt (Workforce.ledger p') to
                = Workforce.sequenceAt (Workforce.ledger p) to ++ [w] /\
              Workforce.uncaughtSince p p' = []) as (H1 & H2 & H3).
      { subst from to src p'. destruct Hdir as [(Hf & Ht & Hr)|[Hf Ht]].
        - rewrite Hf in Hw |- *.
          exact (pool_to_process p result dest w Hdest Hf Ht Hr Hw).
        - rewrite Ht. exact (process_to_pool p result dest w Hdest Hf Ht Hw). }
      repeat split; try done. subst p'. by apply LedgerFacts.onDragEnd_workers.
    + intros (Hf & Ht & _). subst p'.
      rewrite (process_to_process p result dest Hdest Hf Ht).
      split; [done|]. split.
      * unfold Workforce.toastsSince. simpl. apply drop_all.
      * unfold Workforce.uncaughtSince. simpl. apply drop_all.
Qed.

Lemma cross_location_move_witness :
  (exists st',
      Allocation.onDragEnd (Allocation.gesture "available" 0 "assigned" 0)
                           Allocation.initialState = Some st' /\
      Allocation.assignedStaff st' = [Allocation.alice]) /\
  Workforce.sequenceAt
    (Workforce.ledger
       (Workforce.onDragEnd (Workforce.gesture "employee-pool" 0 "process-approve" 0)
                            Workforce.oneStaffed))
    "process-approve"
  = [Workforce.alice; Workforce.bob] /\
  Workforce.ledger
    (Workforce.onDragEnd (Workforce.gesture "process-approve" 0 "process-pay" 0)
                         Workforce.oneStaffed)
  = Workforce.ledger Workforce.oneStaffed.
Proof.
  split; [|split].
  - destruct (proj1 cross_location_move Allocation.initialState
                (Allocation.gesture "available" 0 "assigned" 0)
                {| Allocation.droppableId := "assigned"; Allocation.index := 0 |}
                Allocation.alice)
      as (st' & Hrun & _ & Hdst & _).
    + reflexivity.
    + by left.
    + by right.
    + discriminate.
    + reflexivity.
    + exists st'. split; [exact Hrun|exact Hdst].
  - refine (proj1 (proj2 (proj1 (proj2 cross_location_move Workforce.oneStaffed
                     (Workforce.gesture "employee-pool" 0 "process-approve" 0)
                     {| Workforce.droppableId := "process-approve"; Workforce.index := 0 |}
                     Workforce.bob eq_refl eq_refl) _))).
    left. split; [reflexivity|]. split; [split; [discriminate|reflexivity]|discriminate].
  - refine (proj1 (proj2 (proj2 cross_location_move Workforce.oneStaffed
                     (Workforce.gesture "process-approve" 0 "process-pay" 0)
                     {| Workforce.droppableId := "process-pay"; Workforce.index := 0 |}
                     Workforce.alice eq_refl eq_refl) _)).
    split; [split; [discriminate|reflexivity]|]. split; discriminate.
Defined.

(** C4, as stated, fails on the workforce page.  Bob is dragged from the head
    of the pool onto position 0 of a step that already holds Alice, and is put
    after her, not at position 0.  And Alice, dragged from that step onto
    position 0 of another step, stays where she is: the source sequence keeps
    her and the destination sequence stays empty. *)
Lemma cross_location_move_ignores_index :
  let p := Workforce.oneStaffed in
  let result := Workforce.gesture "employee-pool" 0 "process-approve" 0 in
  let p' := Workforce.onDragEnd result p in
  let across := Workforce.gesture "process-approve" 0 "process-pay" 0 in
  let p'' := Workforce.onDragEnd across p in
  (Workforce.sequenceAt (Workforce.ledger p) "employee-pool" !! 0 = Some Workforce.bob /\
   Workforce.sequenceAt (Workforce.ledger p) "process-approve" = [Workforce.alice] /\
   Workforce.sequenceAt (Workforce.ledger p') "process-approve"
     = [Workforce.alice; Workforce.bob] /\
   Workforce.sequenceAt (Workforce.ledger p') "process-approve"
     <> JS.splice_insert 0 Workforce.bob
          (Workforce.sequenceAt (Workforce.ledger p) "process-approve")) /\
  (Workforce.sequenceAt (Workforce.ledger p) "process-approve" !! 0 = Some Workforce.alice /\
   Workforce.sequenceAt (Workforce.ledger p'') "process-approve" = [Workforce.alice] /\
   Workforce.sequenceAt (Workforce.ledger p'') "process-pay" = [] /\
   Workforce.sequenceAt (Workforce.ledger p'') "process-pay"
     <> JS.splice_insert 0 Workforce.alice
          (Workforce.sequenceAt (Workforce.ledger p) "process-pay")).
Proof. repeat split; try reflexivity; discriminate. Qed.

(** C5, as the code has it.  In the two-list component a move within one
    list is a pure reorder: the worker at the source index is taken out and
    put back at the destination index, the list keeps its length and the other
    list is untouched.  On the workforce page a move within one location is
    ignored: the whole ledger, hence every sequence and every length, stays as
    it was. *)
Theorem same_location_move :
  (forall (st : Allocation.State) (result : Allocation.DropResult)
          (dest : Allocation.Location) (w : Allocation.Employee),
      let src := Allocation.source result in
      let here := Allocation.droppableId dest in
      Allocation.destination result = Some dest ->
      Allocation.droppableId src = here ->
      Allocation.listOf st here !! Allocation.index src = Some w ->
      exists st',
        Allocation.onDragEnd result st = Some st' /\
        Allocation.listOf st' here
          = JS.splice_insert (Allocation.index dest) w
              (JS.splice_remove (Allocation.index src) (Allocation.listOf st here)) /\
        length (Allocation.listOf st' here) = length (Allocation.listOf st here) /\
        (forall other,
            String.eqb other "available" <> String.eqb here "available" ->
            Allocation.listOf st' other = Allocation.listOf st other)) /\
  (forall (p : Workforce.Page) (result : Workforce.DropResult)
          (dest : Workforce.Location),
      Workforce.destination result = Some dest ->
      Workforce.droppableId (Workforce.source result) = Workforce.droppableId dest ->
      Workforce.ledger (Workforce.onDragEnd result p) = Workforce.ledger p).
Proof.
  split.
  - intros st result dest w src here. apply reorder_within_list.
  - intros p result dest. apply same_droppable_ignored.
Qed.

Lemma same_location_move_witness :
  (exists st',
      Allocation.onDragEnd (Allocation.gesture "available" 0 "available" 2)
                           Allocation.initialState = Some st' /\
      length (Allocation.availableStaff st') = 6) /\
  Workforce.ledger
    (Workforce.onDragEnd (Workforce.gesture "employee-pool" 0 "employee-pool" 2)
                         Workforce.loaded)
  = Workforce.ledger Workforce.loaded.
Proof.
  split.
  - destruct (proj1 same_location_move Allocation.initialState
                (Allocation.gesture "available" 0 "available" 2)
                {| Allocation.droppableId := "available"; Allocation.index := 2 |}
                Allocation.alice)
      as (st' & Hrun & _ & Hlen & _).
    + reflexivity.
    + reflexivity.
    + reflexivity.
    + exists st'. split; [exact Hrun|exact Hlen].
  - apply (proj2 same_location_move Workforce.loaded
             (Workforce.gesture "employee-pool" 0 "employee-pool" 2)
             {| Workforce.droppableId := "employee-pool"; Workforce.index := 2 |}).
    + reflexivity.
    + reflexivity.
Defined.

(** C5, as stated, fails on the workforce page: Alice is dragged from
    position 0 of the pool to position 2 of the pool, and the pool keeps its
    order instead of showing her third. *)
Lemma same_location_move_not_reordered :
  let p := Workforce.loaded in
  let result := Workforce.gesture "employee-pool" 0 "employee-pool" 2 in
  let p' := Workforce.onDragEnd result p in
  Workforce.sequenceAt (Workforce.ledger p) "employee-pool" !! 0 = Some Workforce.alice /\
  Workforce.sequenceAt (Workforce.ledger p') "employee-pool"
    = Workforce.sequenceAt (Workforce.ledger p) "employee-pool" /\
  Workforce.sequenceAt (Workforce.ledger p') "employee-pool"
    <> JS.splice_insert 2 Workforce.alice
         (JS.splice_remove 0 (Workforce.sequenceAt (Workforce.ledger p) "employee-pool")).
Proof. repeat split; try reflexivity. discriminate. Qed.

End GestureFacts.

(* ===================================================================== *)
(** ** The simulation run *)
(* ===================================================================== *)

Module SimulationFacts.
Import Workforce.

Lemma repliesFrom_cons remote i body reqs :
  repliesFrom remote i (body :: reqs) =
  match remote i body with
  | Some res => resultOf body res :: repliesFrom remote (S i) reqs
  | None => repliesFrom remote (S i) reqs
  end.
Proof.
  unfold repliesFrom. rewrite imap_cons. cbn [omap list_omap].
  rewrite Nat.add_0_r.
  assert (imap ((fun j b => resultOf b <$> remote (i + j) b) ∘ S) reqs
          = imap (fun j b => resultOf b <$> remote (S i + j) b) reqs) as ->.
  { apply imap_ext. intros j b _. simpl. by rewrite Nat.add_succ_r. }
  by destruct (remote i body).
Qed.

Lemma simulateEach_succeeds remote n : forall todo i acc p,
  simResults (sim p) = acc ->
  (forall j body, map (bodyFor (processes p)) todo !! j = Some body ->
                  is_Some (remote (i + j) body)) ->
  exists p',
    simulateEach remote n i todo acc p
      = (p', Some (acc ++ repliesFrom remote i (map (bodyFor (processes p)) todo))) /\
    sameButProgress p p' /\
    posted (out p') = posted (out p) ++ map (bodyFor (processes p)) todo /\
    simResults (sim p') = acc ++ repliesFrom remote i (map (bodyFor (processes p)) todo) /\
    (todo <> [] -> total (simProgress (sim p')) = n /\
                   current (simProgress (sim p')) = i + length todo).
Proof.
  induction todo as [|[k staff] rest IH]; intros i acc p Hacc Hok.
  - exists p. simpl. rewrite !app_nil_r. repeat split; try done.
  - cbn [simulateEach].
    destruct (Hok 0 (bodyFor (processes p) (k, staff)) eq_refl) as [res Hres].
    rewrite Nat.add_0_r in Hres. 
    change {| process_id := k; process_label := labelOr (findProcess (processes p) k) "Unknown"; assigned := staff |}
      with (bodyFor (processes p) (k, staff)).
    rewrite Hres.
    set (acc' := acc ++ [_]).
    set (p2 := setSimResults acc' _).
    destruct (IH (S i) acc' p2) as (p' & Hrun & Hsame & Hposted & Hres' & Hprog).
    { done. }
    { intros j b Hj. replace (S i + j) with (i + S j) by lia. by apply (Hok (S j)). }
    exists p'. rewrite Hrun. cbn [map]. rewrite repliesFrom_cons, Hres.
    change (processes p2) with (processes p) in *.
    subst acc'. rewrite <- !app_assoc in *. simpl in *.
    split; [done|]. split.
    { destruct Hsame as (?&?&?&?&?&?&?&?&?). by repeat split. }
    split. { rewrite Hposted. subst p2. simpl. by rewrite <- app_assoc. }
    split; [done|]. intros _.
    destruct rest as [|kv rest].
    + simpl in Hrun. injection Hrun as <-. simpl. split; [done|lia].
    + destruct Hprog as [-> ->]; [done|]. split; [done|]. simpl. lia.
Qed.

Lemma simulateEach_fails remote n : forall todo i acc p k body,
  simResults (sim p) = acc ->
  map (bodyFor (processes p)) todo !! k = Some body ->
  remote (i + k) body = None ->
  (forall j b, j < k -> map (bodyFor (processes p)) todo !! j = Some b ->
               is_Some (remote (i + j) b)) ->
  exists p',
    simulateEach remote n i todo acc p = (p', None) /\
    sameButProgress p p' /\
    posted (out p') = posted (out p) ++ take (S k) (map (bodyFor (processes p)) todo) /\
    simResults (sim p') = acc ++ repliesFrom remote i (take k (map (bodyFor (processes p)) todo)) /\
    total (simProgress (sim p')) = n /\
    current (simProgress (sim p')) = i + k + 1.
Proof.
  induction todo as [|[key staff] rest IH]; intros i acc p k body Hacc Hk Hfail Hok;
    [done|].
  cbn [simulateEach].
  change {| process_id := key;
            process_label := labelOr (findProcess (processes p) key) "Unknown";
            assigned := staff |}
    with (bodyFor (processes p) (key, staff)).
  destruct k as [|k].
  - simpl in Hk. injection Hk as <-. rewrite Nat.add_0_r in Hfail. rewrite Hfail.
    eexists. split; [done|]. simpl. rewrite app_nil_r.
    repeat split; try done. lia.
  - destruct (Hok 0 (bodyFor (processes p) (key, staff))) as [res Hres]; [lia|done|].
    rewrite Nat.add_0_r in Hres. rewrite Hres.
    set (acc' := acc ++ [_]).
    set (p2 := setSimResults acc' _).
    destruct (IH (S i) acc' p2 k body) as (p' & Hrun & Hsame & Hposted & Hres' & Htot & Hcur).
    { done. }
    { done. }
    { by replace (S i + k) with (i + S k) by lia. }
    { intros j b Hj Hb. replace (S i + j) with (i + S j) by lia.
      apply (Hok (S j)); [lia|done]. }
    exists p'. rewrite Hrun.
    change (processes p2) with (processes p) in *.
    cbn [map take]. rewrite repliesFrom_cons, Hres.
    subst acc'. rewrite <- !app_assoc in *. simpl in *.
    split; [done|]. split.
    { destruct Hsame as (?&?&?&?&?&?&?&?&?). by repeat split. }
    split. { rewrite Hposted. subst p2. simpl. by rewrite <- app_assoc. }
    split; [done|]. split; [done|lia].
Qed.

Lemma allSucceed_repliesFrom_length remote reqs :
  allSucceed remote reqs -> length (repliesFrom remote 0 reqs) = length reqs.
Proof.
  unfold allSucceed.
  assert (forall i, (forall j body, reqs !! j = Some body -> is_Some (remote (i + j) body)) ->
                    length (repliesFrom remote i reqs) = length reqs) as H.
  { induction reqs as [|b reqs IH]; intros i Hok; [done|].
    rewrite repliesFrom_cons.
    destruct (Hok 0 b eq_refl) as [res Hres]. rewrite Nat.add_0_r in Hres.
    rewrite Hres. simpl. f_equal. apply IH.
    intros j body Hj. replace (S i + j) with (i + S j) by lia. by apply (Hok (S j)). }
  intros Hok. apply (H 0). done.
Qed.

Lemma outcome remote reqs :
  allSucceed remote reqs \/ exists k, failsAtStep remote reqs k.
Proof.
  induction reqs as [|b reqs IH] using rev_ind.
  - left. intros j body. by rewrite lookup_nil.
  - destruct IH as [Hok|[k Hk]].
    + destruct (remote (length reqs) b) as [res|] eqn:Hb.
      * left. intros j body Hj.
        apply lookup_app_Some in Hj as [Hj|[Hlen Hj]]; [by eapply Hok|].
        apply list_lookup_singleton_Some in Hj as [Hj ->].
        replace j with (length reqs) by lia. by rewrite Hb.
      * right. exists (length reqs). split.
        -- exists b. split; [|done]. by rewrite lookup_app_r, Nat.sub_diag.
        -- by rewrite take_app_length.
    + right. exists k. destruct Hk as [(body & Hbody & Hnone) Hbefore].
      pose proof (lookup_lt_Some _ _ _ Hbody) as Hlt.
      split.
      * exists body. split; [|done]. by rewrite lookup_app_l.
      * rewrite take_app_le by lia. done.
Qed.

Lemma outcome_exclusive remote reqs k :
  allSucceed remote reqs -> failsAtStep remote reqs k -> False.
Proof.
  intros Hok [(body & Hbody & Hnone) _].
  destruct (Hok k body Hbody) as [? ?]. congruence.
Qed.

Lemma guard_rejects remote p :
  assignedProcesses p = [] ->
  runFullSimulation remote p = showToast "No employees assigned yet" error (Some 3000%Z) p.
Proof. unfold runFullSimulation. by intros ->. Qed.

Lemma run_completes remote p :
  assignedProcesses p <> [] ->
  allSucceed remote (requestsOf p) ->
  let p' := runFullSimulation remote p in
  simPhase (sim p') = complete /\ showSimModal (sim p') = true /\
  simResults (sim p') = repliesFrom remote 0 (requestsOf p) /\
  simAggregate (sim p') = Some (aggregate (simResults (sim p'))) /\
  total (simProgress (sim p')) = length (assignedProcesses p) /\
  current (simProgress (sim p')) = length (assignedProcesses p) /\
  posted (out p') = posted (out p) ++ requestsOf p /\
  phaseLog (out p') = phaseLog (out p) ++ [simulating; analyzing; complete] /\
  toasts (out p') = toasts (out p) /\
  ledger p' = ledger p /\ processes p' = processes p.
Proof.
  intros Hne Hok p'. subst p'. unfold runFullSimulation.
  destruct (length (assignedProcesses p) =? 0)%nat eqn:Hlen.
  { apply Nat.eqb_eq, length_zero_iff_nil in Hlen. done. }
  set (p1 := setSimAggregate None _).
  destruct (simulateEach_succeeds remote (length (assignedProcesses p))
              (assignedProcesses p) 0 [] p1)
    as (p2 & Hrun & Hsame & Hposted & Hres & Hprog); [done|apply Hok|].
  rewrite Hrun. destruct (Hprog Hne) as [Htot Hcur].
  destruct Hsame as (Hpr & Hl & Hpa & Hsc & Hto & Hph & Hmo & Hsp & Hag).
  change (processes p1) with (processes p) in *.
  fold (requestsOf p) in *. simpl in *.
  rewrite Hres, Htot, Hcur, Hposted, Hph, Hto, Hl, Hpr, Hmo.
  repeat split; try done. by rewrite <- !app_assoc.
Qed.

Lemma run_aborts remote p k :
  failsAtStep remote (requestsOf p) k ->
  let p' := runFullSimulation remote p in
  simPhase (sim p') = idle /\ showSimModal (sim p') = false /\
  simResults (sim p') = repliesFrom remote 0 (take k (requestsOf p)) /\
  simAggregate (sim p') = None /\
  total (simProgress (sim p')) = length (assignedProcesses p) /\
  current (simProgress (sim p')) = k + 1 /\
  posted (out p') = posted (out p) ++ take (S k) (requestsOf p) /\
  phaseLog (out p') = phaseLog (out p) ++ [simulating; idle] /\
  toasts (out p') = toasts (out p) ++
    [ {| message := "Simulation failed"; level := error; duration := None |} ] /\
  ledger p' = ledger p /\ processes p' = processes p.
Proof.
  intros [(body & Hbody & Hnone) Hbefore] p'. subst p'. unfold runFullSimulation.
  destruct (length (assignedProcesses p) =? 0)%nat eqn:Hlen.
  { apply Nat.eqb_eq, length_zero_iff_nil in Hlen.
    unfold requestsOf in Hbody. by rewrite Hlen in Hbody. }
  set (p1 := setSimAggregate None _).
  destruct (simulateEach_fails remote (length (assignedProcesses p))
              (assignedProcesses p) 0 [] p1 k body)
    as (p2 & Hrun & Hsame & Hposted & Hres & Htot & Hcur); [done|done|done| |].
  { intros j b Hj Hb. apply (Hbefore j b). by rewrite lookup_take_lt. }
  rewrite Hrun.
  destruct Hsame as (Hpr & Hl & Hpa & Hsc & Hto & Hph & Hmo & Hsp & Hag).
  change (processes p1) with (processes p) in *.
  fold (requestsOf p) in *. simpl in *.
  rewrite Hres, Htot, Hcur, Hposted, Hph, Hto, Hl, Hpr, Hag.
  repeat split; try done. by rewrite <- !app_assoc.
Qed.

Lemma reduceSum_total f rs :
  reduceSum f rs = total_of (map f (map result_simulation rs)).
Proof.
  unfold reduceSum, total_of. rewrite map_map. generalize 0%float.
  induction rs as [|r rs IH]; intros a; simpl; [done|]. apply IH.
Qed.

Lemma aggregate_mean f rs :
  (reduceSum f rs / ofNat (length rs))%float
  = mean (map f (map result_simulation rs)).
Proof. unfold mean. by rewrite reduceSum_total, !length_map. Qed.

Lemma aggregate_any rs :
  is_bottleneck (aggregate rs) = true <->
  exists r, r ∈ rs /\ is_bottleneck (result_simulation r) = true.
Proof.
  simpl. rewrite existsb_exists. by setoid_rewrite list_elem_of_In.
Qed.

(** C1, as the code has it.  Every run that reaches the analyzing phase has
    collected at least one result, and its aggregate holds, for the cycle
    time before and after, the cycle reduction, the throughput gain and the
    impact score, the mean of that field over the results as binary64 gives
    it: the values added one by one, in the order of the results, to 0, and
    the sum divided by their number; for the operating cost increase, that
    sum; and its bottleneck flag is set exactly when the flag of at least one
    result is. *)
Theorem aggregate_of_run remote p :
  let p' := runFullSimulation remote p in
  let sims := map result_simulation (simResults (sim p')) in
  analyzing ∈ phasesSince p p' ->
  1 <= length sims /\
  exists agg, simAggregate (sim p') = Some agg /\
    cycle_time_before agg = mean (map cycle_time_before sims) /\
    cycle_time_after agg = mean (map cycle_time_after sims) /\
    cycle_reduction_pct agg = mean (map cycle_reduction_pct sims) /\
    throughput_gain_pct agg = mean (map throughput_gain_pct sims) /\
    impact_score agg = mean (map impact_score sims) /\
    opex_increase agg = total_of (map opex_increase sims) /\
    (is_bottleneck agg = true <-> exists s, s ∈ sims /\ is_bottleneck s = true).
Proof.
  intros p' sims Hphase. subst p' sims.
  destruct (assignedProcesses p) as [|kv todo] eqn:Htodo.
  { rewrite guard_rejects in Hphase by done.
    unfold phasesSince in Hphase. simpl in Hphase.
    rewrite drop_all in Hphase. by apply elem_of_nil in Hphase. }
  assert (assignedProcesses p <> []) as Hne by (by rewrite Htodo).
  destruct (outcome remote (requestsOf p)) as [Hok|[k Hk]].
  - destruct (run_completes remote p Hne Hok)
      as (_ & _ & Hres & Hagg & _ & _ & _ & _ & _ & _ & _).
    split.
    { rewrite length_map, Hres, allSucceed_repliesFrom_length by done.
      unfold requestsOf. rewrite length_map, Htodo. simpl. lia. }
    eexists. split; [exact Hagg|].
    set (rs := simResults _).
    repeat split; try apply aggregate_mean.
    + apply reduceSum_total.
    + intros H. apply aggregate_any in H as (r & Hr & Hb).
      exists (result_simulation r). split; [|done]. by apply list_elem_of_fmap_2.
    + intros (s & Hs & Hb). apply aggregate_any.
      apply list_elem_of_fmap in Hs as (r & -> & Hr). by exists r.
  - destruct (run_aborts remote p k Hk) as (_ & _ & _ & _ & _ & _ & _ & Hph & _).
    unfold phasesSince in Hphase. rewrite Hph, drop_app_length in Hphase.
    apply list_elem_of_In in Hphase. simpl in Hphase. intuition discriminate.
Qed.

(** The examples of the specification: reductions of 10, 20 and 30 percent
    average to 20, flags false, true, false give true, and the costs add up. *)
Example three_results_aggregate :
  cycle_reduction_pct (aggregate threeResults) = 20%float /\
  is_bottleneck (aggregate threeResults) = true /\
  opex_increase (aggregate threeResults) = 7%float.
Proof. repeat split; reflexivity. Qed.

Lemma aggregate_of_run_witness :
  analyzing ∈ phasesSince allStaffed (runFullSimulation alwaysReplies allStaffed) /\
  1 <= length (map result_simulation
                 (simResults (sim (runFullSimulation alwaysReplies allStaffed)))).
Proof.
  assert (analyzing ∈ phasesSince allStaffed (runFullSimulation alwaysReplies allStaffed))
    as H.
  { apply list_elem_of_In. vm_compute. auto. }
  split; [exact H|].
  exact (proj1 (aggregate_of_run alwaysReplies allStaffed H)).
Defined.

(** C1, as stated, fails where binary64 rounds.  The three steps of a run
    are answered with cost increases, and cycle reductions, of 0.1, 0.2 and
    0.3.  The run reaches the analyzing phase with these three results; the
    cost increase of its aggregate is not what the three are worth together,
    and the cycle reduction of its aggregate is not a third of it.  Nor is
    there one sum of the three for the aggregate to be equal to: three results
    with the same values in the opposite order give another cost increase. *)
Lemma aggregate_is_rounded :
  let p' := runFullSimulation (repliesWith tenths) allStaffed in
  let sims := map result_simulation (simResults (sim p')) in
  analyzing ∈ phasesSince allStaffed p' /\
  sims = map result_simulation tenths /\
  exists agg worth sum third,
    simAggregate (sim p') = Some agg /\
    exactSum (map opex_increase sims) = Some worth /\
    exact (opex_increase agg) = Some sum /\
    ~ (sum == worth)%Q /\
    exactSum (map cycle_reduction_pct sims) = Some worth /\
    exact (cycle_reduction_pct agg) = Some third /\
    ~ (third == worth / 3)%Q /\
    opex_increase (aggregate (rev tenths)) <> opex_increase agg.
Proof.
  intros p' sims.
  split; [apply list_elem_of_In; vm_compute; auto|].
  split; [reflexivity|].
  eexists _, _, _, _. split; [reflexivity|].
  split; [vm_compute; reflexivity|]. split; [vm_compute; reflexivity|].
  split; [intros H; vm_compute in H; discriminate|].
  split; [vm_compute; reflexivity|]. split; [vm_compute; reflexivity|].
  split; [intros H; vm_compute in H; discriminate|].
  intros H. apply (f_equal Prim2SF) in H. vm_compute in H. discriminate.
Qed.

Lemma no_staff_no_steps p :
  Forall (fun kv => kv.2 = []) (assignments (ledger p)) -> assignedProcesses p = [].
Proof.
  intros H. unfold assignedProcesses.
  rewrite <- (JSFacts.entries_perm (assignments (ledger p))) in H.
  induction H as [|[k v] o Hv _ IH]; simpl in *; [done|]. by rewrite Hv.
Qed.

Lemma replies_of_successes remote reqs k :
  k <= length reqs ->
  allSucceed remote (take k reqs) ->
  length (repliesFrom remote 0 (take k reqs)) = k.
Proof.
  intros Hk Hok. rewrite allSucceed_repliesFrom_length by done.
  rewrite length_take. lia.
Qed.

(** C3, as the code has it.  When the call of step [k] is the first to fail,
    the run ends in phase idle with the modal closed, one error toast and no
    aggregate; the results of the [k] steps before it stay in [simResults]
    (none when the first step fails). *)
Theorem failed_step_aborts_run remote p k :
  failsAtStep remote (requestsOf p) k ->
  let p' := runFullSimulation remote p in
  simPhase (sim p') = idle /\
  showSimModal (sim p') = false /\
  toastsSince p p'
    = [ {| message := "Simulation failed"; level := error; duration := None |} ] /\
  simAggregate (sim p') = None /\
  simResults (sim p') = repliesFrom remote 0 (take k (requestsOf p)) /\
  length (simResults (sim p')) = k.
Proof.
  intros Hk p'.
  destruct (run_aborts remote p k Hk)
    as (Hph & Hmo & Hres & Hagg & _ & _ & _ & _ & Hto & _).
  fold p' in Hph, Hmo, Hres, Hagg, Hto.
  repeat split; try done.
  - unfold toastsSince. by rewrite Hto, drop_app_length.
  - rewrite Hres. destruct Hk as [(body & Hbody & _) Hbefore].
    apply replies_of_successes; [|done].
    apply lookup_lt_Some in Hbody. lia.
Qed.

Lemma second_of_three_fails :
  failsAtStep (failsOn 1) (requestsOf allStaffed) 1.
Proof.
  split.
  - eexists. split; reflexivity.
  - intros j body Hj. destruct j as [|j]; [by eexists|].
    by rewrite lookup_take_ge in Hj by (simpl; lia).
Qed.

Lemma failed_step_aborts_run_witness :
  failsAtStep (failsOn 1) (requestsOf allStaffed) 1 /\
  simPhase (sim (runFullSimulation (failsOn 1) allStaffed)) = idle.
Proof.
  assert (failsAtStep (failsOn 1) (requestsOf allStaffed) 1) as H.
  { split.
    - eexists. split; reflexivity.
    - intros j body Hj. destruct j as [|j]; [by eexists|].
      by rewrite lookup_take_ge in Hj by (simpl; lia). }
  split; [exact H|].
  exact (proj1 (failed_step_aborts_run (failsOn 1) allStaffed 1 H)).
Defined.

(** C3, as stated, fails: with three staffed steps and the call of the second
    step failing, the run is back in phase idle and [simResults] still holds
    the result of the first step. *)
Lemma failed_step_keeps_earlier_results :
  let p' := runFullSimulation (failsOn 1) allStaffed in
  length (assignedProcesses allStaffed) = 3 /\
  failsAtStep (failsOn 1) (requestsOf allStaffed) 1 /\
  simPhase (sim p') = idle /\
  map processName (simResults (sim p')) = ["Approve Invoice"] /\
  simResults (sim p') <> [].
Proof.
  split; [reflexivity|]. split; [apply second_of_three_fails|].
  split; [reflexivity|]. split; [reflexivity|]. discriminate.
Qed.

(** C6, as the code has it.  A run asked for while every location's sequence
    is empty is turned away at the guard: one toast of level error,
    'No employees assigned yet', is sent to the sink; no phase is entered, no
    request is posted, and the phase, the progress, the results, the aggregate
    and the ledger are what they were. *)
Theorem empty_selection_rejected remote p :
  Forall (fun kv => kv.2 = []) (assignments (ledger p)) ->
  let p' := runFullSimulation remote p in
  toastsSince p p'
    = [ {| message := "No employees assigned yet"; level := error;
           duration := Some 3000%Z |} ] /\
  phasesSince p p' = [] /\
  postedSince p p' = [] /\
  sim p' = sim p /\ ledger p' = ledger p /\ panel p' = panel p /\
  scroll p' = scroll p /\ processes p' = processes p.
Proof.
  intros Hempty p'. subst p'.
  rewrite (guard_rejects remote p (no_staff_no_steps p Hempty)).
  unfold toastsSince, phasesSince, postedSince. simpl.
  rewrite drop_app_length, !drop_all. by repeat split.
Qed.

Lemma empty_selection_rejected_witness :
  Forall (fun kv : string * list Employee => kv.2 = []) (assignments (ledger loaded)) /\
  phasesSince loaded (runFullSimulation alwaysReplies loaded) = [].
Proof.
  assert (Forall (fun kv : string * list Employee => kv.2 = [])
                 (assignments (ledger loaded))) as H.
  { repeat constructor. }
  split; [exact H|].
  exact (proj1 (proj2 (empty_selection_rejected alwaysReplies loaded H))).
Defined.

(** C6, as stated, fails on the level of the notification: the toast the
    guard sends has level error, and no toast of level info is sent. *)
Lemma empty_selection_toast_is_error :
  let p' := runFullSimulation alwaysReplies loaded in
  Forall (fun kv : string * list Employee => kv.2 = []) (assignments (ledger loaded)) /\
  map level (toastsSince loaded p') = [error] /\
  Forall (fun t => level t <> info) (toastsSince loaded p').
Proof.
  split; [repeat constructor|]. split; [reflexivity|].
  repeat constructor. discriminate.
Qed.

(** C7, as the code has it.  A run asked for with at least one non-empty
    location works through the non-empty locations, and only those, in the
    ledger's iteration order, posting one request per location, one after the
    other, until a call fails: with no failing call the requests posted are
    exactly one per non-empty location, and when step [k] fails they are the
    first [k + 1] of them.  The total shown in the progress is the number of
    non-empty locations. *)
Theorem calls_follow_ledger_order remote p :
  assignedProcesses p <> [] ->
  let p' := runFullSimulation remote p in
  map (fun r => (process_id r, assigned r)) (requestsOf p)
    = List.filter nonEmpty (JS.entries (assignments (ledger p))) /\
  Forall (fun r => assigned r <> []) (requestsOf p) /\
  total (simProgress (sim p')) = length (assignedProcesses p) /\
  (allSucceed remote (requestsOf p) ->
     postedSince p p' = requestsOf p /\
     current (simProgress (sim p')) = length (assignedProcesses p)) /\
  (forall k, failsAtStep remote (requestsOf p) k ->
     postedSince p p' = take (S k) (requestsOf p) /\
     current (simProgress (sim p')) = S k) /\
  (allSucceed remote (requestsOf p) \/ exists k, failsAtStep remote (requestsOf p) k) /\
  (NoDup (JS.keys (assignments (ledger p))) ->
     NoDup (map process_id (postedSince p p'))).
Proof.
  intros Hne p'.
  assert (forall k, failsAtStep remote (requestsOf p) k ->
            total (simProgress (sim p')) = length (assignedProcesses p) /\
            postedSince p p' = take (S k) (requestsOf p) /\
            current (simProgress (sim p')) = S k) as Hfail.
  { intros k Hk.
    destruct (run_aborts remote p k Hk) as (_ & _ & _ & _ & Htot & Hcur & Hpo & _).
    fold p' in Htot, Hcur, Hpo. unfold postedSince.
    rewrite Hpo, drop_app_length. split; [done|]. split; [done|lia]. }
  assert (allSucceed remote (requestsOf p) ->
            total (simProgress (sim p')) = length (assignedProcesses p) /\
            postedSince p p' = requestsOf p /\
            current (simProgress (sim p')) = length (assignedProcesses p)) as Hgood.
  { intros Hok.
    destruct (run_completes remote p Hne Hok) as (_ & _ & _ & _ & Htot & Hcur & Hpo & _).
    fold p' in Htot, Hcur, Hpo. unfold postedSince.
    by rewrite Hpo, drop_app_length. }
  split.
  { unfold requestsOf, assignedProcesses. rewrite map_map. simpl.
    rewrite <- (map_id (List.filter _ _)) at 2. apply map_ext. by intros []. }
  split.
  { unfold requestsOf, assignedProcesses. apply Forall_forall. intros r Hr.
    apply list_elem_of_In, in_map_iff in Hr as ([key staff] & <- & Hkv).
    apply filter_In in Hkv as [_ Hkv]. simpl in *. by destruct staff. }
  split.
  { destruct (outcome remote (requestsOf p)) as [Hok|[k Hk]].
    - apply (Hgood Hok).
    - apply (Hfail k Hk). }
  split; [intros Hok; split; apply (Hgood Hok)|].
  split; [intros k Hk; split; apply (Hfail k Hk)|].
  split; [apply outcome|].
  intros Hkeys.
  assert (NoDup (map process_id (requestsOf p))) as Hall.
  { unfold requestsOf, assignedProcesses. rewrite map_map. simpl.
    apply (JSFacts.filter_keys_NoDup nonEmpty), JSFacts.entries_keys_NoDup, Hkeys. }
  destruct (outcome remote (requestsOf p)) as [Hok|[k Hk]].
  - by rewrite (proj1 (proj2 (Hgood Hok))).
  - rewrite (proj1 (proj2 (Hfail k Hk))).
    change (map process_id (take (S k) (requestsOf p)))
      with (process_id <$> take (S k) (requestsOf p)).
    rewrite fmap_take. eapply sublist_NoDup; [exact Hall|apply sublist_take].
Qed.

Lemma calls_follow_ledger_order_witness :
  assignedProcesses oneStaffed <> [] /\
  total (simProgress (sim (runFullSimulation alwaysReplies oneStaffed)))
    = length (assignedProcesses oneStaffed).
Proof.
  assert (assignedProcesses oneStaffed <> []) as H by discriminate.
  split; [exact H|].
  exact (proj1 (proj2 (proj2 (calls_follow_ledger_order alwaysReplies oneStaffed H)))).
Defined.

(** The example of the specification: with one worker on the first step and
    nobody on the others, one location is processed and the total is 1. *)
Example one_location_one_step :
  let p' := runFullSimulation alwaysReplies oneStaffed in
  map (fun kv : string * list Employee => (kv.1, map id kv.2))
      (JS.entries (assignments (ledger oneStaffed)))
    = [("approve", ["emp-1"]); ("pay", []); ("archive", [])] /\
  map process_id (postedSince oneStaffed p') = ["approve"] /\
  total (simProgress (sim p')) = 1 /\
  simPhase (sim p') = complete.
Proof. repeat split; reflexivity. Qed.

(** C7, as stated, fails when a call fails: with two staffed steps and the
    first call failing, one request is posted, and the second location gets
    none. *)
Lemma first_failure_stops_calls :
  let p' := runFullSimulation (failsOn 0) bothStaffed in
  map fst (assignedProcesses bothStaffed) = ["approve"; "pay"] /\
  map process_id (postedSince bothStaffed p') = ["approve"] /\
  length (postedSince bothStaffed p') <> length (assignedProcesses bothStaffed).
Proof. repeat split; try reflexivity. discriminate. Qed.

End SimulationFacts.

(* ===================================================================== *)
(** ** Auto-scroll while dragging *)
(* ===================================================================== *)

Module ScrollFacts.
Import Workforce.









Lemma tick_idle p : isDragging (scroll p) = false -> tick p = p.
Proof.
  intros Hd. unfold tick. rewrite Hd. by destruct (lastMouseEvent _).
Qed.



(** There the region, 50 pixels down, is scrolled up by 6 pixels. *)
Example scrolls_up_by_six :
  scrollTop (scrollRegion 120 tallRegion) = 44%float.
Proof. reflexivity. Qed.


End ScrollFacts.

(* ===================================================================== *)
(** ** The chat component *)
(* ===================================================================== *)

Module ChatFacts.
Import Chatbot.

Lemma trimStart_nil s : trimStart s = [] <-> blank s.
Proof.
  unfold blank. induction s as [|c s IH]; simpl.
  - split; [constructor|done].
  - destruct (isWhiteSpace c) eqn:Hc.
    + rewrite IH. split; [by constructor|]. by inversion 1.
    + split; [done|]. inversion 1. congruence.
Qed.

Lemma trimStart_head s c t : trimStart s = c :: t -> isWhiteSpace c = false.
Proof.
  induction s as [|c' s IH]; simpl; [done|].
  destruct (isWhiteSpace c') eqn:Hc; [done|]. by intros [= <- _].
Qed.

Lemma trimStart_blank s : blank (trimStart s) -> blank s.
Proof.
  intros H. apply trimStart_nil.
  destruct (trimStart s) as [|c t] eqn:E; [done|].
  apply trimStart_head in E. inversion H. congruence.
Qed.

(** [!s.trim()] holds exactly of the strings made of white space only. *)
Lemma trim_blank s : truthy (trim s) = false <-> blank s.
Proof.
  unfold trim. split.
  - intros H. apply trimStart_blank.
    destruct (rev _) as [|c t] eqn:E; [|done].
    apply (f_equal (@rev N)) in E. rewrite rev_involutive in E. simpl in E.
    apply trimStart_nil in E. unfold blank in *.
    apply Forall_rev in E. by rewrite rev_involutive in E.
  - intros H. apply trimStart_nil in H. by rewrite H.
Qed.

Lemma guard_open st :
  ~ blank (inputValue st) -> isLoading st = false ->
  negb (truthy (trim (inputValue st))) || isLoading st = false.
Proof.
  intros Hb ->. destruct (truthy _) eqn:E; [done|]. by apply trim_blank in E.
Qed.

(** C8, as the code has it.  A message sent with a non-blank input and no
    reply pending, while the current socket is not open, whatever the status
    shown, adds two messages to the history, first the user's text as typed
    and then the warning; nothing is handed to a socket; and a reconnect is
    attempted: a new socket is created, it becomes the current one, and the
    status shown is connecting. *)
Theorem send_while_disconnected now st :
  ~ blank (inputValue st) ->
  isLoading st = false ->
  channelOpen st = false ->
  let st' := handleSendMessage now st in
  messages st'
    = messages st ++
      [ {| id := now; text := inputValue st; sender := user; timestamp := now |};
        {| id := (now + 1)%Z; text := warningText; sender := bot; timestamp := now |} ] /\
  wire st' = wire st /\
  sockets st' = sockets st ++ [CONNECTING] /\
  ws st' = Some (length (sockets st)) /\
  connectionStatus st' = connecting /\
  isLoading st' = false /\
  inputValue st' = [].
Proof.
  intros Hb Hl Hc st'. subst st'. unfold handleSendMessage.
  rewrite (guard_open st Hb Hl).
  change (channelOpen (setIsLoading true _)) with (channelOpen st). rewrite Hc.
  unfold connectWebSocket.
  change (channelOpen (setIsLoading false _)) with (channelOpen st). rewrite Hc.
  simpl. by rewrite <- app_assoc.
Qed.

Lemma send_while_disconnected_witness :
  ~ blank (inputValue (typed "hello")) /\
  length (messages (handleSendMessage 5 (typed "hello")))
    = length (messages (typed "hello")) + 2.
Proof.
  assert (~ blank (inputValue (typed "hello"))) as H.
  { intros Hb. apply trim_blank in Hb. discriminate Hb. }
  split; [exact H|].
  rewrite (proj1 (send_while_disconnected 5 (typed "hello") H eq_refl eq_refl)).
  reflexivity.
Defined.

(** C8, as stated, fails where the status shown and the current socket
    disagree.  The first socket was replaced while connecting, both sockets
    opened and the replaced one closed: the status is disconnected and the
    current socket is open.  A message sent then is added to the history
    once, with no warning, is handed to the current socket, and no reconnect
    is attempted. *)
Lemma status_does_not_decide :
  let st := outdated in
  let st' := handleSendMessage 9 st in
  connectionStatus st = disconnected /\
  ~ blank (inputValue st) /\
  isLoading st = false /\
  messages st'
    = messages st ++
      [ {| id := 9; text := lit "hello"; sender := user; timestamp := 9 |} ] /\
  wire st' = wire st ++ [Out 1 (lit "hello")] /\
  sockets st' = sockets st.
Proof.
  repeat split; try reflexivity.
  intros Hb. apply trim_blank in Hb. discriminate Hb.
Qed.

Lemma connectWebSocket_frame st :
  wire (connectWebSocket st) = wire st /\
  isLoading (connectWebSocket st) = isLoading st /\
  messages (connectWebSocket st) = messages st.
Proof. unfold connectWebSocket. by destruct (channelOpen st). Qed.

Lemma unanswered_out st i data :
  unanswered (logTraffic (Out i data) st) = S (unanswered st).
Proof. unfold unanswered. simpl. by rewrite rev_unit. Qed.

Lemma unanswered_in st i data : unanswered (logTraffic (In i data) st) = 0.
Proof. unfold unanswered. simpl. by rewrite rev_unit. Qed.

Lemma step_oneAtATime e st : oneAtATime st -> oneAtATime (step e st).
Proof.
  intros Hinv. destruct e as [v|now| |now| |i|now i data|i|i]; simpl; try done.
  - unfold handleSendMessage.
    destruct (negb (truthy (trim (inputValue st))) || isLoading st) eqn:Hg; [done|].
    apply orb_false_iff in Hg as [_ Hl].
    assert (unanswered st = 0) as H0.
    { destruct Hinv as [?|[_ ?]]; [done|congruence]. }
    set (st1 := setIsLoading true _).
    destruct (channelOpen st1).
    + destruct (ws st1) as [i|].
      * right. rewrite unanswered_out. split; [|done].
        change (unanswered st1) with (unanswered st). by rewrite H0.
      * left. change (unanswered st1) with (unanswered st). by rewrite H0.
    + left. unfold unanswered in *.
      by rewrite (proj1 (connectWebSocket_frame _)).
  - unfold oneAtATime, unanswered in *.
    by rewrite (proj1 (connectWebSocket_frame st)),
               (proj1 (proj2 (connectWebSocket_frame st))).
  - left. unfold onmessage. apply (unanswered_in st i data).
Qed.

Lemma run_oneAtATime es st : oneAtATime st -> oneAtATime (run es st).
Proof.
  unfold run. revert st. induction es as [|e es IH]; intros st H; simpl; [done|].
  by apply IH, step_oneAtATime.
Qed.

(** C10. Sending with an input that is empty or holds white space only, or
    while the loading flag is set, changes nothing at all: the state after is
    the state before, so no message is added, nothing is handed to a socket,
    and the loading flag, the sockets and the status stay.  Hence, whatever
    happens to the mounted component, at most one frame has been sent since
    the last frame received. *)
Theorem blocked_send_is_noop :
  (forall now st,
      blank (inputValue st) \/ isLoading st = true ->
      handleSendMessage now st = st) /\
  (forall now es, unanswered (run es (mounted now)) <= 1).
Proof.
  split.
  - intros now st Hblocked. unfold handleSendMessage.
    destruct Hblocked as [Hb| ->].
    + apply trim_blank in Hb. by rewrite Hb.
    + by rewrite orb_true_r.
  - intros now es.
    destruct (run_oneAtATime es (mounted now)) as [->|[-> _]]; [by left|lia|lia].
Qed.

Lemma blocked_send_is_noop_witness :
  handleSendMessage 5 (typed "  ") = typed "  " /\
  handleSendMessage 9 waiting = waiting.
Proof.
  split.
  - apply (proj1 blocked_send_is_noop 5%Z (typed "  ")).
    left. repeat constructor.
  - apply (proj1 blocked_send_is_noop 9%Z waiting).
    right. reflexivity.
Defined.

End ChatFacts.

(* ===================================================================== *)
(** ** Strings with a known prefix *)
(* ===================================================================== *)

Module StringFacts.

Lemma substring_all s : String.substring 0 (String.length s) s = s.
Proof. induction s as [|c s IH]; simpl; [done|]. by rewrite IH. Qed.

Lemma prefix_app p s : String.prefix p (p ++ s)%string = true.
Proof.
  induction p as [|c p IH]; [by destruct s|].
  change (String c p ++ s)%string with (String c (p ++ s)%string). simpl.
  destruct (ascii_dec c c); [exact IH|done].
Qed.

Lemma prefix_split p s :
  String.prefix p s = true ->
  s = (p ++ String.substring (String.length p) (String.length s - String.length p) s)%string.
Proof.
  revert s. induction p as [|c p IH]; intros s H; simpl.
  - rewrite Nat.sub_0_r. by rewrite substring_all.
  - destruct s as [|c' s]; simpl in H; [done|].
    destruct (ascii_dec c c') as [<-|]; [|done].
    transitivity (String c (p ++ String.substring (String.length p)
                                     (String.length s - String.length p) s)%string);
      [f_equal; by apply IH|reflexivity].
Qed.

Lemma get_is_Some {V} (o : JS.object V) k : is_Some (JS.get o k) <-> k ∈ JS.keys o.
Proof.
  unfold JS.keys. induction o as [|[k' v] o IH]; simpl.
  - split; [by intros [? ?]|by intros ?%elem_of_nil].
  - rewrite elem_of_cons. destruct (String.eqb_spec k' k) as [->|Hne].
    + split; [by left|by eexists].
    + rewrite IH. split; [by right|]. intros [?|?]; [congruence|done].
Qed.

Lemma get_define {V} (o : JS.object V) k v k' :
  JS.get (JS.define o k v) k' = if String.eqb k k' then Some v else JS.get o k'.
Proof.
  destruct (String.eqb_spec k k') as [->|Hne].
  - apply JSFacts.define_same.
  - apply JSFacts.define_other. congruence.
Qed.

End StringFacts.

(* ===================================================================== *)
(** ** The order in which the keys of an object are enumerated *)
(* ===================================================================== *)

Module EnumerationFacts.
















End EnumerationFacts.

(* ===================================================================== *)
(** ** The handlers of the workforce page, gesture by gesture *)
(* ===================================================================== *)

Module PageFacts.
Import Workforce.




(** X1.  A gesture that ends outside every droppable, or whose source index
    points at no worker of the source sequence (a stale index), changes
    nothing but the dragging flag, which is cleared: the ledger, the
    suggestion panel and the toasts stay as they were. *)
Theorem stale_gesture_ignored result p :
  destination result = None \/
  sequenceAt (ledger p) (droppableId (source result)) !! index (source result) = None ->
  onDragEnd result p = setIsDragging false p.
Proof.
  intros H. unfold onDragEnd.
  destruct (destination result) as [dest|]; [|done].
  destruct H as [|H]; [done|].
  destruct (String.eqb _ _); [done|].
  unfold sequenceAt in H.
  destruct (String.eqb (droppableId (source result)) "employee-pool").
  - cbn [ledger setIsDragging with_scroll]. by rewrite H.
  - destruct (JS.startsWith _ _); [|done].
    cbn [ledger setIsDragging with_scroll]. by rewrite H.
Qed.

Lemma stale_gesture_ignored_witness :
  onDragEnd {| source := {| droppableId := "process-approve"; index := 0 |};
               destination := None |} oneStaffed
    = setIsDragging false oneStaffed /\
  onDragEnd (gesture "employee-pool" 6 "process-pay" 0) loaded
    = setIsDragging false loaded.
Proof.
  split.
  - apply stale_gesture_ignored. left. reflexivity.
  - apply stale_gesture_ignored. right. reflexivity.
Defined.

(** X2.  The page moves workers between the pool and a process only.  A drop
    from one process on another process (or anywhere but the pool), a drop
    from the pool on something that is not a process, and a drag that starts
    at neither the pool nor a process are ignored: only the dragging flag is
    cleared. *)
Theorem unsupported_move_ignored result p dest :
  destination result = Some dest ->
  (isProcess (droppableId (source result)) /\ droppableId dest <> "employee-pool") \/
  (droppableId (source result) = "employee-pool" /\
   JS.startsWith (droppableId dest) "process-" = false) \/
  (droppableId (source result) <> "employee-pool" /\
   JS.startsWith (droppableId (source result)) "process-" = false) ->
  onDragEnd result p = setIsDragging false p.
Proof.
  intros Hdest H. unfold onDragEnd. rewrite Hdest.
  destruct (String.eqb _ _); [done|].
  destruct H as [[Hs Hd]|[[Hs Hd]|[Hs Hd]]].
  - rewrite (GestureFacts.process_not_pool _ Hs). destruct Hs as [_ ->].
    destruct (_ !! _); [|done].
    by destruct (String.eqb_spec (droppableId dest) "employee-pool").
  - rewrite Hs. cbn [String.eqb Ascii.eqb Bool.eqb].
    destruct (_ !! _); [|done]. by rewrite Hd.
  - destruct (String.eqb_spec (droppableId (source result)) "employee-pool"); [done|].
    by rewrite Hd.
Qed.

Lemma unsupported_move_ignored_witness :
  onDragEnd (gesture "process-approve" 0 "process-pay" 0) oneStaffed
    = setIsDragging false oneStaffed.
Proof.
  apply (unsupported_move_ignored _ oneStaffed
           {| droppableId := "process-pay"; index := 0 |}).
  - reflexivity.
  - left. split; [split; [discriminate|reflexivity]|discriminate].
Defined.

Lemma removeFromProcess_valid processId empIndex p w :
  default [] (JS.get (assignments (ledger p)) processId) !! empIndex = Some w ->
  let p' := removeFromProcess processId empIndex p in
  JS.get (assignments (ledger p')) processId
    = Some (JS.splice_remove empIndex
              (default [] (JS.get (assignments (ledger p)) processId))) /\
  availableStaff (ledger p') = availableStaff (ledger p) ++ [w] /\
  (forall other, other <> processId ->
     JS.get (assignments (ledger p')) other = JS.get (assignments (ledger p)) other) /\
  JS.keys (assignments (ledger p')) = JS.keys (assignments (ledger p)) /\
  toastsSince p p'
    = [ {| message := name w ++ " returned to pool"; level := info;
           duration := Some 2000%Z |} ].
Proof.
  intros Hw p'. subst p'. unfold removeFromProcess. rewrite Hw. cbn.
  split; [apply JSFacts.define_same|]. split; [done|].
  split; [intros other Hne; by apply JSFacts.define_other|].
  split.
  - apply JSFacts.define_keys_existing.
    destruct (JS.get _ _); [done|]. simpl in Hw. by rewrite lookup_nil in Hw.
  - unfold toastsSince. simpl. by rewrite drop_app_length.
Qed.

(** X3.  The remove button of a worker card: when the process holds a worker
    at the index, that worker is taken out of the process's sequence and
    appended at the end of the pool, every other location keeps its
    sequence, no location is created or deleted, and one info toast
    '<name> returned to pool' (2000 ms) is shown; when the index points at
    no worker (also for a process the ledger does not hold), nothing at all
    changes. *)
Theorem remove_returns_to_pool processId empIndex p :
  let staff := default [] (JS.get (assignments (ledger p)) processId) in
  let p' := removeFromProcess processId empIndex p in
  (forall w, staff !! empIndex = Some w ->
     JS.get (assignments (ledger p')) processId = Some (JS.splice_remove empIndex staff) /\
     availableStaff (ledger p') = availableStaff (ledger p) ++ [w] /\
     (forall other, other <> processId ->
        JS.get (assignments (ledger p')) other = JS.get (assignments (ledger p)) other) /\
     JS.keys (assignments (ledger p')) = JS.keys (assignments (ledger p)) /\
     toastsSince p p'
       = [ {| message := name w ++ " returned to pool"; level := info;
              duration := Some 2000%Z |} ]) /\
  (staff !! empIndex = None -> p' = p).
Proof.
  intros staff p'. split.
  - intros w Hw. by apply removeFromProcess_valid.
  - subst staff p'. unfold removeFromProcess. by intros ->.
Qed.

Lemma remove_returns_to_pool_witness :
  availableStaff (ledger (removeFromProcess "approve" 0 oneStaffed))
    = availableStaff (ledger oneStaffed) ++ [alice] /\
  removeFromProcess "pay" 0 oneStaffed = oneStaffed.
Proof.
  pose proof (remove_returns_to_pool "approve" 0 oneStaffed) as H1.
  pose proof (remove_returns_to_pool "pay" 0 oneStaffed) as H2.
  cbv zeta in H1, H2. split.
  - destruct (proj1 H1 alice) as (_ & Hp & _); [reflexivity|exact Hp].
  - apply (proj2 H2). reflexivity.
Defined.




Lemma totalAssigned_length p :
  totalAssigned p = length (concat (JS.values (assignments (ledger p)))).
Proof.
  unfold totalAssigned.
  assert (forall (l : list (list Employee)) n,
            fold_left (fun sum arr => sum + length arr) l n = n + length (concat l)) as H.
  { induction l as [|x l IH]; intros n; simpl; [lia|].
    rewrite IH, length_app. lia. }
  by rewrite H.
Qed.

(** X6.  Every worker is accounted for.  After any sequence of drags and
    removals on a page that started with the six seed workers in the pool
    and every location empty, the length of the pool, [totalAssigned] (the
    number behind the run button) and the number of exceptions the drags
    have thrown since add up to six: each throw costs exactly one worker, and
    without one the ledger holds the seed workers, each once.  Thrown or not,
    no worker id ever occurs twice in the ledger. *)
Theorem head_count_conserved es p :
  allInPool (ledger p) ->
  let p' := handleAll es p in
  length (availableStaff (ledger p')) + totalAssigned p'
    + length (uncaughtSince p p') = 6 /\
  NoDup (id <$> workers (ledger p')) /\
  (uncaughtSince p p' = [] -> workers (ledger p') ≡ₚ initialEmployees).
Proof.
  intros Hinit p'.
  destruct (LedgerFacts.handleAll_accounts es p) as (thrown & lost & Hu & Hlen & Hw).
  fold p' in Hu, Hw.
  rewrite (LedgerFacts.allInPool_workers _ Hinit) in Hw.
  rewrite (LedgerFacts.uncaughtSince_app _ _ _ Hu).
  split; [|split].
  - rewrite totalAssigned_length, <- length_app, <- Hlen, <- length_app.
    change (availableStaff (ledger p') ++ concat (JS.values (assignments (ledger p'))))
      with (workers (ledger p')).
    by rewrite Hw.
  - pose proof LedgerFacts.initial_ids_distinct as Hd.
    rewrite <- Hw, fmap_app in Hd. by apply NoDup_app in Hd as [? _].
  - intros ->. destruct lost; [|done]. by rewrite app_nil_r in Hw.
Qed.

Lemma head_count_conserved_witness :
  let es := [ Drag (gesture "employee-pool" 0 (droppableOf "__proto__") 0);
              Drag (gesture "employee-pool" 0 (droppableOf "approve") 0) ] in
  let p' := handleAll es protoLoaded in
  length (availableStaff (ledger p')) + totalAssigned p'
    + length (uncaughtSince protoLoaded p') = 6.
Proof.
  intros es p'.
  apply (head_count_conserved es protoLoaded).
  split; [reflexivity|]. repeat constructor.
Defined.

Lemma totalAssigned_zero p : totalAssigned p = 0 <-> assignedProcesses p = [].
Proof.
  rewrite totalAssigned_length. unfold assignedProcesses, JS.values.
  induction (JS.entries (assignments (ledger p))) as [|[k v] l IH]; simpl; [done|].
  rewrite length_app. unfold nonEmpty at 1. simpl.
  destruct v as [|x v]; simpl; [exact IH|]. split; [lia|done].
Qed.

(** X7.  The header renders the run button exactly when a run started from
    the same render gets past its entry guard and enters the simulating
    phase: [totalAssigned > 0] and 'some location has staff' are the same
    condition, so the guard's 'No employees assigned yet' branch is not
    reachable through the button. *)
Theorem run_button_matches_guard remote p :
  runButtonShown p = true <-> simulating ∈ phasesSince p (runFullSimulation remote p).
Proof.
  unfold runButtonShown. rewrite Nat.ltb_lt. split.
  - intros Hpos.
    assert (assignedProcesses p <> []) as Hne.
    { intros H. apply totalAssigned_zero in H. lia. }
    destruct (SimulationFacts.outcome remote (requestsOf p)) as [Hok|[k Hk]].
    + destruct (SimulationFacts.run_completes remote p Hne Hok)
        as (_ & _ & _ & _ & _ & _ & _ & Hph & _).
      unfold phasesSince. rewrite Hph, drop_app_length. by left.
    + destruct (SimulationFacts.run_aborts remote p k Hk)
        as (_ & _ & _ & _ & _ & _ & _ & Hph & _).
      unfold phasesSince. rewrite Hph, drop_app_length. by left.
  - intros Hin. destruct (totalAssigned p) eqn:E; [|lia].
    apply totalAssigned_zero in E.
    rewrite (SimulationFacts.guard_rejects remote p E) in Hin.
    unfold phasesSince in Hin. simpl in Hin. rewrite drop_all in Hin.
    by apply elem_of_nil in Hin.
Qed.

Lemma run_button_matches_guard_witness :
  simulating ∈ phasesSince oneStaffed (runFullSimulation (failsOn 0) oneStaffed).
Proof.
  apply (proj1 (run_button_matches_guard (failsOn 0) oneStaffed)). reflexivity.
Defined.

Lemma define_empty_Forall (o : JS.object (list Employee)) k :
  Forall (fun kv => kv.2 = []) o -> Forall (fun kv => kv.2 = []) (JS.define o k []).
Proof.
  induction 1 as [|[k' v'] o Hv Ho IH]; simpl; [by repeat constructor|].
  destruct (String.eqb k' k); by constructor.
Qed.

(** One [initialAssignments[n.id] = []]. *)
Lemma set_empty_spec (o : JS.object (list Employee)) id :
  Forall (fun kv => kv.2 = []) o -> NoDup (JS.keys o) -> JS.get o "__proto__" = None ->
  Forall (fun kv => kv.2 = []) (JS.set o id []) /\
  NoDup (JS.keys (JS.set o id [])) /\
  JS.get (JS.set o id []) "__proto__" = None /\
  (forall k, JS.get (JS.set o id []) k
             = if String.eqb id k && negb (String.eqb k "__proto__")
               then Some [] else JS.get o k).
Proof.
  intros He Hk Hp. destruct (String.eqb_spec id "__proto__") as [->|Hne].
  - rewrite (JSFacts.set_proto o [] Hp). repeat split; try done.
    intros k. destruct (String.eqb_spec "__proto__" k) as [<-|]; [|done].
    by rewrite String.eqb_refl.
  - rewrite JSFacts.set_define by (by right).
    split; [by apply define_empty_Forall|].
    split; [by apply JSFacts.define_keys_NoDup|].
    split; [by rewrite JSFacts.define_other|].
    intros k. rewrite StringFacts.get_define.
    destruct (String.eqb_spec id k) as [<-|]; [|done].
    by destruct (String.eqb_spec id "__proto__").
Qed.

Lemma initialAssignments_spec nodes :
  Forall (fun kv => kv.2 = []) (initialAssignments nodes) /\
  NoDup (JS.keys (initialAssignments nodes)) /\
  (forall k, JS.get (initialAssignments nodes) k
             = if bool_decide (k ∈ node_id <$> nodes) && negb (String.eqb k "__proto__")
               then Some [] else None).
Proof.
  unfold initialAssignments.
  assert (forall (o : JS.object (list Employee)),
            Forall (fun kv => kv.2 = []) o -> NoDup (JS.keys o) ->
            JS.get o "__proto__" = None ->
            let o' := fold_left (fun o n => JS.set o (node_id n) []) nodes o in
            Forall (fun kv => kv.2 = []) o' /\ NoDup (JS.keys o') /\
            (forall k, JS.get o' k
                       = if bool_decide (k ∈ node_id <$> nodes)
                            && negb (String.eqb k "__proto__")
                         then Some [] else JS.get o k))
    as H.
  { induction nodes as [|n nodes IH]; intros o He Hk Hp; simpl.
    - repeat split; try done.
    - destruct (set_empty_spec o (node_id n) He Hk Hp) as (He1 & Hk1 & Hp1 & Hget1).
      destruct (IH (JS.set o (node_id n) []) He1 Hk1 Hp1) as (H1 & H2 & H3).
      repeat split; try done.
      intros k. rewrite H3, Hget1.
      destruct (String.eqb_spec (node_id n) k) as [->|Hne].
      + rewrite (bool_decide_eq_true_2 (k ∈ k :: _)) by (by left).
        destruct (bool_decide _), (String.eqb k "__proto__"); done.
      + destruct (bool_decide (k ∈ node_id <$> nodes)) eqn:E.
        * apply bool_decide_eq_true_1 in E.
          by rewrite (bool_decide_eq_true_2 (k ∈ node_id n :: _)) by (by right).
        * apply bool_decide_eq_false_1 in E.
          rewrite (bool_decide_eq_false_2 (k ∈ node_id n :: _)); [done|].
          intros Hin. apply elem_of_cons in Hin as [?|?]; [congruence|done]. }
  destruct (H []) as (H1 & H2 & H3); [constructor|constructor|done|].
  repeat split; try done.
Qed.

(** X8.  Loading the topology on a page whose workers are all in the pool
    leaves them there.  A reply with a [nodes] array makes those nodes the
    process list and shows no toast; the keys [Object.entries] then finds in
    the assignments are, each once, the node ids other than [__proto__]:
    every such node has an own, empty location, and a node with the id
    [__proto__] has none (the assignment has replaced the prototype of the
    object instead), so that in a copy [{...assignments}], where a drop looks
    it up, its id reads as a member inherited from [Object.prototype].  A reply
    without [nodes] or a failed fetch leaves the ledger as it was and shows
    the one error toast 'Failed to load process data'; the reply without
    [nodes] has by then emptied the process list, the failed fetch leaves it
    alone. *)
Theorem topology_load_gives_clean_start reply p :
  allInPool (ledger p) ->
  let p' := fetchTopology reply p in
  allInPool (ledger p') /\
  match reply with
  | Some (Some nodes) =>
      processes p' = nodes /\
      NoDup (JS.entries (assignments (ledger p'))).*1 /\
      (forall k, k ∈ (JS.entries (assignments (ledger p'))).*1
                 <-> k ∈ node_id <$> nodes /\ k <> "__proto__") /\
      (forall n, n ∈ nodes ->
         JS.read (assignments (ledger p')) (node_id n)
         = if String.eqb (node_id n) "__proto__" then JS.Inherited else JS.Own []) /\
      toastsSince p p' = []
  | Some None =>
      ledger p' = ledger p /\ processes p' = [] /\
      toastsSince p p'
        = [ {| message := "Failed to load process data"; level := error;
               duration := None |} ]
  | None =>
      ledger p' = ledger p /\ processes p' = processes p /\
      toastsSince p p'
        = [ {| message := "Failed to load process data"; level := error;
               duration := None |} ]
  end.
Proof.
  intros [Hpool Hempty] p'. subst p'.
  destruct reply as [[nodes|]|]; simpl.
  - destruct (initialAssignments_spec nodes) as (H1 & H2 & H3).
    split; [by split|]. split; [done|].
    split; [by apply JSFacts.entries_keys_NoDup|]. split.
    { intros k. rewrite (JSFacts.entries_perm (initialAssignments nodes)).
      change ((initialAssignments nodes).*1) with (JS.keys (initialAssignments nodes)).
      rewrite <- StringFacts.get_is_Some, H3.
      destruct (bool_decide (k ∈ node_id <$> nodes)) eqn:E;
        [apply bool_decide_eq_true_1 in E|apply bool_decide_eq_false_1 in E];
        destruct (String.eqb_spec k "__proto__"); simpl; split;
        try (intros [? ?]; done); try (intros [? ?]; by eexists); try done.
      all: try (intros _; by eexists). }
    split.
    { intros n Hn. unfold JS.read. rewrite H3.
      rewrite bool_decide_eq_true_2 by (by apply list_elem_of_fmap_2).
      by destruct (String.eqb_spec (node_id n) "__proto__") as [->|]. }
    unfold toastsSince. simpl. by rewrite drop_all.
  - split; [by split|]. split; [done|]. split; [done|].
    unfold toastsSince. simpl. by rewrite drop_app_length.
  - split; [by split|]. split; [done|]. split; [done|].
    unfold toastsSince. simpl. by rewrite drop_app_length.
Qed.

Lemma topology_load_gives_clean_start_witness :
  allInPool (ledger (fetchTopology (Some (Some protoSteps)) initialPage)) /\
  allInPool (ledger (fetchTopology (Some None) loaded)).
Proof.
  split.
  - apply (topology_load_gives_clean_start (Some (Some protoSteps)) initialPage).
    split; [reflexivity|constructor].
  - apply (topology_load_gives_clean_start (Some None) loaded).
    split; [reflexivity|repeat constructor].
Defined.

End PageFacts.

(* ===================================================================== *)
(** ** Auto-scroll around a drag *)
(* ===================================================================== *)

Module DragScrollFacts.
Import Workforce.
Import ScrollFacts.

Lemma onDragEnd_scroll result p :
  scroll (onDragEnd result p)
  = {| isDragging := false; scrollEl := scrollEl (scroll p);
       poolEl := poolEl (scroll p); lastMouseEvent := lastMouseEvent (scroll p) |}.
Proof.
  unfold onDragEnd.
  destruct (destination result) as [dest|]; [|done].
  destruct (String.eqb _ _); [done|].
  destruct (String.eqb _ _).
  - destruct (_ !! _) as [w|]; [|done].
    destruct (JS.startsWith _ _); [|done].
    destruct (JS.read _ _); [|done|]; by destruct (findProcess _ _).
  - destruct (JS.startsWith _ _); [|done].
    destruct (_ !! _) as [w|]; [|done].
    by destruct (String.eqb _ _).
Qed.

(** X9.  Once a drag has ended, however it ended, the auto-scroll is off:
    a pointer sample handled directly, an animation frame, and an animation
    frame after a further mouse move all leave the page, and with it both
    regions' scroll positions, exactly as it was.  The two regions and the
    last pointer sample are kept by the drag end itself. *)
Theorem drag_end_stops_scrolling result p y :
  let p' := onDragEnd result p in
  handleMouseMove y p' = p' /\
  tick p' = p' /\
  tick (onMouseMove y p') = onMouseMove y p' /\
  scrollEl (scroll p') = scrollEl (scroll p) /\
  poolEl (scroll p') = poolEl (scroll p) /\
  lastMouseEvent (scroll p') = lastMouseEvent (scroll p).
Proof.
  intros p'. subst p'. split; [|split; [|split]].
  - unfold handleMouseMove. by rewrite onDragEnd_scroll.
  - apply tick_idle. by rewrite onDragEnd_scroll.
  - apply tick_idle. simpl. by rewrite onDragEnd_scroll.
  - by rewrite onDragEnd_scroll.
Qed.

End DragScrollFacts.

(* ===================================================================== *)
(** ** A simulation run from the outside *)
(* ===================================================================== *)

Module RunFacts.
Import Workforce.
Import SimulationFacts.

Lemma repliesFrom_lookup remote reqs : forall i j r,
  (forall j body, reqs !! j = Some body -> is_Some (remote (i + j) body)) ->
  repliesFrom remote i reqs !! j = Some r ->
  exists body res, reqs !! j = Some body /\ remote (i + j) body = Some res /\
                   r = resultOf body res.
Proof.
  induction reqs as [|b reqs IH]; intros i j r Hok Hr; [done|].
  rewrite repliesFrom_cons in Hr.
  destruct (Hok 0 b eq_refl) as [res Hres]. rewrite Nat.add_0_r in Hres.
  rewrite Hres in Hr. destruct j as [|j]; simpl in Hr.
  - injection Hr as <-. exists b, res. by rewrite Nat.add_0_r.
  - destruct (IH (S i) j r) as (body & res' & H1 & H2 & H3); [|done|].
    { intros j' body Hj. replace (S i + j') with (i + S j') by lia.
      by apply (Hok (S j')). }
    exists body, res'. replace (i + S j) with (S i + j) by lia. done.
Qed.

Lemma repliesFrom_names remote reqs : forall i,
  (forall j body, reqs !! j = Some body -> is_Some (remote (i + j) body)) ->
  map processName (repliesFrom remote i reqs) = map process_label reqs.
Proof.
  induction reqs as [|b reqs IH]; intros i Hok; [done|].
  rewrite repliesFrom_cons.
  destruct (Hok 0 b eq_refl) as [res Hres]. rewrite Nat.add_0_r in Hres.
  rewrite Hres. simpl. f_equal. apply IH.
  intros j body Hj. replace (S i + j) with (i + S j) by lia. by apply (Hok (S j)).
Qed.

(** X11.  A run in which no call fails ends in the complete phase with the
    modal open, having passed through simulating, analyzing and complete in
    that order, and shows no toast.  It holds one result per staffed
    location, in request order: the [j]-th result carries the label that was
    sent in the [j]-th request as its process name, and the simulation and
    the suggestion text of the reply to that request. *)
Theorem run_without_failure remote p :
  assignedProcesses p <> [] ->
  allSucceed remote (requestsOf p) ->
  let p' := runFullSimulation remote p in
  simPhase (sim p') = complete /\
  showSimModal (sim p') = true /\
  phasesSince p p' = [simulating; analyzing; complete] /\
  toastsSince p p' = [] /\
  length (simResults (sim p')) = length (assignedProcesses p) /\
  map processName (simResults (sim p')) = map process_label (requestsOf p) /\
  (forall j r, simResults (sim p') !! j = Some r ->
     exists body res, requestsOf p !! j = Some body /\ remote j body = Some res /\
                      r = resultOf body res).
Proof.
  intros Hne Hok p'.
  destruct (run_completes remote p Hne Hok)
    as (Hph & Hmo & Hres & _ & _ & _ & _ & Hlog & Hto & _).
  fold p' in Hph, Hmo, Hres, Hlog, Hto.
  split; [done|]. split; [done|].
  split; [unfold phasesSince; by rewrite Hlog, drop_app_length|].
  split; [unfold toastsSince; by rewrite Hto, drop_all|].
  split.
  { rewrite Hres, allSucceed_repliesFrom_length by done.
    unfold requestsOf. by rewrite length_map. }
  split; [rewrite Hres; by apply repliesFrom_names|].
  intros j r Hr. rewrite Hres in Hr.
  by apply (repliesFrom_lookup remote (requestsOf p) 0 j r).
Qed.

Lemma run_without_failure_witness :
  map processName (simResults (sim (runFullSimulation alwaysReplies bothStaffed)))
    = map process_label (requestsOf bothStaffed).
Proof.
  pose proof (run_without_failure alwaysReplies bothStaffed) as H. cbv zeta in H.
  destruct H as (_ & _ & _ & _ & _ & H & _).
  - discriminate.
  - intros j body _. by eexists.
  - exact H.
Defined.

Lemma simulateEach_frame remote n : forall todo i acc p,
  sameButProgress p (simulateEach remote n i todo acc p).1.
Proof.
  induction todo as [|[k staff] rest IH]; intros i acc p; simpl.
  - by repeat split.
  - destruct (remote i _) as [res|]; simpl.
    + match goal with |- sameButProgress _ (simulateEach _ _ _ _ ?a ?q).1 =>
        destruct (IH (S i) a q) as (?&?&?&?&?&?&?&?&?) end.
      by repeat split.
    + by repeat split.
Qed.

(** X12.  A run, whatever the service replies and however it ends (rejected
    at the guard, aborted or complete), never touches the ledger, the
    process list, the suggestion panel or the drag and scroll state: it only
    writes the simulation state and what leaves the component. *)
Theorem run_leaves_the_ledger_alone remote p :
  let p' := runFullSimulation remote p in
  ledger p' = ledger p /\ processes p' = processes p /\
  panel p' = panel p /\ scroll p' = scroll p.
Proof.
  intros p'. subst p'. unfold runFullSimulation.
  destruct (length (assignedProcesses p) =? 0)%nat; [done|].
  set (p1 := setSimAggregate None _).
  pose proof (simulateEach_frame remote (length (assignedProcesses p))
                (assignedProcesses p) 0 [] p1) as (H1 & H2 & H3 & H4 & _).
  destruct (simulateEach _ _ _ _ _ _) as [p2 [all|]]; simpl in *;
    by rewrite H1, H2, H3, H4.
Qed.

Lemma simulateEach_sim remote n : forall todo i acc p q,
  processes p = processes q -> sim p = sim q ->
  sim (simulateEach remote n i todo acc p).1 = sim (simulateEach remote n i todo acc q).1 /\
  (simulateEach remote n i todo acc p).2 = (simulateEach remote n i todo acc q).2.
Proof.
  induction todo as [|[k staff] rest IH]; intros i acc p q Hpr Hsim; simpl; [done|].
  rewrite Hpr. destruct (remote i _) as [res|]; simpl.
  - apply IH; [done|]. simpl. by rewrite Hsim.
  - by rewrite Hsim.
Qed.

(** X13.  A run that gets past the guard starts from scratch: the simulation
    state it ends with (modal, phase, progress, results, aggregate) depends
    on the ledger, the process list and the replies only, and on nothing an
    earlier run left behind.  In particular the results an aborted run left
    in place never show up in the next run. *)
Theorem run_starts_from_scratch remote p q :
  ledger p = ledger q -> processes p = processes q ->
  assignedProcesses p <> [] ->
  sim (runFullSimulation remote p) = sim (runFullSimulation remote q).
Proof.
  intros Hl Hpr Hne. unfold runFullSimulation.
  assert (assignedProcesses q = assignedProcesses p) as ->
    by (unfold assignedProcesses; by rewrite Hl).
  destruct (assignedProcesses p) as [|[k staff] rest] eqn:E; [done|].
  cbn [length Nat.eqb simulateEach].
  set (p1 := setSimAggregate None (setSimResults [] (setSimPhase simulating (setShowSimModal true p)))).
  set (q1 := setSimAggregate None (setSimResults [] (setSimPhase simulating (setShowSimModal true q)))).
  change (processes p1) with (processes p). change (processes q1) with (processes q).
  rewrite Hpr. destruct (remote 0 _) as [res|]; [|done].
  match goal with
  | |- sim (match simulateEach _ ?n ?i ?t ?a ?x with _ => _ end)
       = sim (match simulateEach _ _ _ _ _ ?y with _ => _ end) =>
      destruct (simulateEach_sim remote n t i a x y) as [H1 H2]; [done|done|];
      destruct (simulateEach remote n i t a x) as [p2 rp];
      destruct (simulateEach remote n i t a y) as [q2 rq]
  end.
  simpl in H1, H2. subst rq. destruct rp as [all|]; simpl; by rewrite H1.
Qed.

Lemma run_starts_from_scratch_witness :
  sim (runFullSimulation alwaysReplies bothStaffed)
  = sim (runFullSimulation alwaysReplies (runFullSimulation (failsOn 1) bothStaffed)).
Proof.
  apply run_starts_from_scratch; [reflexivity|reflexivity|discriminate].
Defined.

(** X14.  The progress a run that got past the guard leaves behind is within
    range: the step counter is at least 1 and at most the total, and the
    total is the number of staffed locations (it is not zero, so the ratio
    the modal shows as a percentage is defined). *)
Theorem progress_stays_in_range remote p :
  assignedProcesses p <> [] ->
  let p' := runFullSimulation remote p in
  1 <= current (simProgress (sim p')) /\
  current (simProgress (sim p')) <= total (simProgress (sim p')) /\
  total (simProgress (sim p')) = length (assignedProcesses p).
Proof.
  intros Hne p'.
  destruct (outcome remote (requestsOf p)) as [Hok|[k Hk]].
  - destruct (run_completes remote p Hne Hok) as (_ & _ & _ & _ & Htot & Hcur & _).
    fold p' in Htot, Hcur. rewrite Htot, Hcur.
    destruct (assignedProcesses p); [done|]. simpl. lia.
  - destruct (run_aborts remote p k Hk) as (_ & _ & _ & _ & Htot & Hcur & _).
    fold p' in Htot, Hcur. rewrite Htot, Hcur.
    destruct Hk as [(body & Hbody & _) _]. apply lookup_lt_Some in Hbody.
    unfold requestsOf in Hbody. rewrite length_map in Hbody. lia.
Qed.

Lemma progress_stays_in_range_witness :
  current (simProgress (sim (runFullSimulation (failsOn 1) allStaffed)))
  <= total (simProgress (sim (runFullSimulation (failsOn 1) allStaffed))).
Proof.
  pose proof (progress_stays_in_range (failsOn 1) allStaffed) as H. cbv zeta in H.
  destruct H as (_ & H & _); [discriminate|exact H].
Defined.

Lemma aggregate_of_one r :
  Forall (fun x => x <> neg_zero)
         [ cycle_time_before (result_simulation r); cycle_time_after (result_simulation r);
           cycle_reduction_pct (result_simulation r);
           throughput_gain_pct (result_simulation r);
           opex_increase (result_simulation r); impact_score (result_simulation r) ] ->
  aggregate [r] = result_simulation r.
Proof.
  destruct r as [nm [a b c d e g h] sg]. cbn [result_simulation cycle_time_before
    cycle_time_after cycle_reduction_pct throughput_gain_pct opex_increase impact_score].
  intros H.
  apply Forall_cons in H as [Ha H]. apply Forall_cons in H as [Hb H].
  apply Forall_cons in H as [Hc H]. apply Forall_cons in H as [Hd H].
  apply Forall_cons in H as [He H]. apply Forall_cons in H as [Hh _].
  unfold aggregate, reduceSum. cbn [fold_left length existsb result_simulation
    cycle_time_before cycle_time_after cycle_reduction_pct throughput_gain_pct
    opex_increase impact_score is_bottleneck].
  change (ofNat 1) with 1%float.
  rewrite !FloatFacts.div_one, !FloatFacts.zero_add by done.
  by rewrite orb_false_r.
Qed.

(** X15.  With exactly one staffed location whose call succeeds, the run
    holds that one result and ends in the phase complete; and when none of
    the six numbers of the reply is the negative zero, its aggregate is the
    simulation of the reply itself: in binary64 adding a number to 0 and
    dividing it by 1 change nothing, and or-ing over a single flag changes
    nothing.  (The negative zero is the one number that [0 + x] does not give
    back.) *)
Theorem single_step_aggregate remote p kv res :
  assignedProcesses p = [kv] ->
  remote 0 (bodyFor (processes p) kv) = Some res ->
  let p' := runFullSimulation remote p in
  simResults (sim p') = [resultOf (bodyFor (processes p) kv) res] /\
  (Forall (fun x => x <> neg_zero)
          [ cycle_time_before (simulation res); cycle_time_after (simulation res);
            cycle_reduction_pct (simulation res); throughput_gain_pct (simulation res);
            opex_increase (simulation res); impact_score (simulation res) ] ->
   simAggregate (sim p') = Some (simulation res)) /\
  simPhase (sim p') = complete.
Proof.
  intros Hkv Hres p'. subst p'. unfold runFullSimulation. rewrite Hkv.
  destruct kv as [k staff]. unfold bodyFor in Hres. simpl in *.
  rewrite Hres. simpl. split; [done|]. split; [|done].
  intros Hz. f_equal. by rewrite aggregate_of_one.
Qed.

Lemma single_step_aggregate_witness :
  simAggregate (sim (runFullSimulation alwaysReplies oneStaffed))
  = Some (simulation sampleReply).
Proof.
  pose proof (single_step_aggregate alwaysReplies oneStaffed
                ("approve", [alice]) sampleReply) as H. cbv zeta in H.
  destruct H as (_ & H & _); [reflexivity|reflexivity|].
  apply H. repeat constructor;
    intros E; apply (f_equal Prim2SF) in E; vm_compute in E; discriminate.
Defined.

(** A single result whose cost increase is the negative zero: the aggregate
    has the positive one. *)
Example negative_zero_loses_its_sign :
  opex_increase (aggregate [resultWith 20 neg_zero false]) = 0%float /\
  0%float <> neg_zero.
Proof.
  split; [reflexivity|].
  intros E. apply (f_equal Prim2SF) in E. vm_compute in E. discriminate.
Qed.

End RunFacts.

(* ===================================================================== *)
(** ** The two lists of the allocation component *)
(* ===================================================================== *)

Module AllocationFacts.
Import Allocation.

Lemma insert_after_remove {A} i (w : A) l :
  l !! i = Some w -> JS.splice_insert i w (JS.splice_remove i l) = l.
Proof.
  intros Hi. unfold JS.splice_insert, JS.splice_remove.
  assert (length (take i l) = i) as Hlen.
  { apply lookup_lt_Some in Hi. rewrite length_take. lia. }
  rewrite delete_take_drop.
  rewrite (take_app_length' _ _ i (eq_sym Hlen)), (drop_app_length' _ _ i (eq_sym Hlen)).
  by apply take_drop_middle.
Qed.

Lemma remove_after_insert {A} j (w : A) l :
  j <= length l -> JS.splice_remove j (JS.splice_insert j w l) = l.
Proof.
  intros Hj. unfold JS.splice_insert, JS.splice_remove.
  assert (length (take j l) = j) as Hlen by (rewrite length_take; lia).
  rewrite <- Hlen at 1. rewrite delete_middle. apply take_drop.
Qed.

Lemma onDragEnd_conserves result st st' :
  isList (droppableId (source result)) ->
  (forall dest, destination result = Some dest -> isList (droppableId dest)) ->
  onDragEnd result st = Some st' ->
  availableStaff st' ++ assignedStaff st' ≡ₚ availableStaff st ++ assignedStaff st.
Proof.
  intros Hs Hd Hrun.
  destruct (destination result) as [dest|] eqn:Hdest.
  - specialize (Hd dest eq_refl).
    destruct (listOf st (droppableId (source result)) !! index (source result))
      as [w|] eqn:Hw.
    + destruct (String.eqb_spec (droppableId (source result)) (droppableId dest))
        as [Heq|Hne].
      * unfold onDragEnd in Hrun. rewrite Hdest, Heq, String.eqb_refl in Hrun.
        rewrite Heq in Hw. rewrite Hw in Hrun. injection Hrun as <-.
        assert (JS.splice_insert (index dest) w
                  (JS.splice_remove (index (source result)) (listOf st (droppableId dest)))
                ≡ₚ listOf st (droppableId dest)) as Hp.
        { rewrite GestureFacts.splice_insert_perm. unfold JS.splice_remove.
          by rewrite <- (delete_Permutation _ _ _ Hw). }
        unfold setList, listOf in *.
        destruct (String.eqb (droppableId dest) "available"); simpl; by rewrite Hp.
      * destruct (GestureFacts.move_between_lists st result dest w Hdest Hs Hd Hne Hw)
          as (st2 & Hrun2 & _ & _ & Hperm).
        congruence.
    + unfold onDragEnd in Hrun. rewrite Hdest, Hw in Hrun.
      by destruct (String.eqb _ _).
  - unfold onDragEnd in Hrun. rewrite Hdest in Hrun. by injection Hrun as <-.
Qed.

Lemma seed_ids_distinct : NoDup (id <$> initialEmployees).
Proof. apply (bool_decide_unpack _). by vm_compute. Qed.

(** X16.  In the two-list component, after any sequence of gestures between
    the two lists it renders ('available' and 'assigned'), each of which the
    handler got through, the two lists together are a permutation of the
    six seed workers: nobody is lost or duplicated, the ids are pairwise
    distinct and the two lengths add up to six. *)
Theorem two_lists_conserve_workers st :
  reachable st ->
  availableStaff st ++ assignedStaff st ≡ₚ initialEmployees /\
  NoDup (id <$> (availableStaff st ++ assignedStaff st)) /\
  length (availableStaff st) + length (assignedStaff st) = 6.
Proof.
  intros Hst.
  assert (availableStaff st ++ assignedStaff st ≡ₚ initialEmployees) as Hperm.
  { induction Hst as [|st result st' _ IH Hs Hd Hrun].
    - cbn [availableStaff assignedStaff initialState]. by rewrite app_nil_r.
    - by rewrite (onDragEnd_conserves result st st' Hs Hd Hrun). }
  split; [done|]. split.
  - rewrite Hperm. apply seed_ids_distinct.
  - rewrite <- length_app. by rewrite Hperm.
Qed.

Lemma two_lists_conserve_workers_witness :
  exists st,
    onDragEnd (gesture "available" 1 "assigned" 0) initialState = Some st /\
    length (availableStaff st) + length (assignedStaff st) = 6.
Proof.
  eexists. split; [reflexivity|].
  apply two_lists_conserve_workers.
  apply (reachable_step initialState (gesture "available" 1 "assigned" 0)).
  - apply reachable_init.
  - left. reflexivity.
  - intros dest H. injection H as <-. right. reflexivity.
  - reflexivity.
Defined.

(** X17.  Round trip in the two-list component: moving the worker at
    position [i] of 'available' to position [j] of 'assigned' and then moving
    the worker at position [j] of 'assigned' back to position [i] of
    'available' gives back the state the first move started from, both lists
    in their original order. *)
Theorem move_there_and_back st i j w :
  availableStaff st !! i = Some w ->
  j <= length (assignedStaff st) ->
  exists st1,
    onDragEnd (gesture "available" i "assigned" j) st = Some st1 /\
    assignedStaff st1 !! j = Some w /\
    onDragEnd (gesture "assigned" j "available" i) st1 = Some st.
Proof.
  intros Hi Hj.
  destruct (GestureFacts.move_between_lists st (gesture "available" i "assigned" j)
              {| droppableId := "assigned"; index := j |} w)
    as (st1 & Hrun1 & Hsrc1 & Hdst1 & _);
    [reflexivity|by left|by right|discriminate|exact Hi|].
  cbn [gesture source droppableId index] in Hsrc1, Hdst1.
  change (listOf st1 "available") with (availableStaff st1) in Hsrc1.
  change (listOf st1 "assigned") with (assignedStaff st1) in Hdst1.
  change (listOf st "available") with (availableStaff st) in Hsrc1.
  change (listOf st "assigned") with (assignedStaff st) in Hdst1.
  assert (assignedStaff st1 !! j = Some w) as Hw1.
  { rewrite Hdst1. by apply GestureFacts.splice_insert_lookup. }
  destruct (GestureFacts.move_between_lists st1 (gesture "assigned" j "available" i)
              {| droppableId := "available"; index := i |} w)
    as (st2 & Hrun2 & Hsrc2 & Hdst2 & _);
    [reflexivity|by right|by left|discriminate|exact Hw1|].
  cbn [gesture source droppableId index] in Hsrc2, Hdst2.
  change (listOf st2 "available") with (availableStaff st2) in Hdst2.
  change (listOf st2 "assigned") with (assignedStaff st2) in Hsrc2.
  change (listOf st1 "available") with (availableStaff st1) in Hdst2.
  change (listOf st1 "assigned") with (assignedStaff st1) in Hsrc2.
  rewrite Hdst1, (remove_after_insert j w _ Hj) in Hsrc2.
  rewrite Hsrc1, (insert_after_remove i w _ Hi) in Hdst2.
  exists st1. split; [done|]. split; [done|].
  rewrite Hrun2. f_equal. destruct st2, st. simpl in *. congruence.
Qed.

Lemma move_there_and_back_witness :
  exists st1,
    onDragEnd (gesture "available" 0 "assigned" 0) initialState = Some st1 /\
    assignedStaff st1 !! 0 = Some alice /\
    onDragEnd (gesture "assigned" 0 "available" 0) st1 = Some initialState.
Proof.
  apply (move_there_and_back initialState 0 0 alice); [reflexivity|simpl; lia].
Defined.

End AllocationFacts.

(* ===================================================================== *)
(** ** The conversation over its whole life *)
(* ===================================================================== *)

Module ConversationFacts.
Import Chatbot.
Import ChatFacts.

(** X18.  Sending while the current socket is open: with an input that is
    not blank and no reply pending, the user's message (its text the input
    as typed, untrimmed) is appended to the history, exactly that text is
    handed to the current socket, the input is emptied and the loading flag
    is set; no warning is added, no socket is created and the connection
    status is left alone. *)
Theorem send_while_connected now st :
  ~ blank (inputValue st) ->
  isLoading st = false ->
  channelOpen st = true ->
  let st' := handleSendMessage now st in
  exists i,
    ws st = Some i /\ sockets st !! i = Some OPEN /\
    messages st'
      = messages st ++
        [ {| id := now; text := inputValue st; sender := user; timestamp := now |} ] /\
    wire st' = wire st ++ [Out i (inputValue st)] /\
    isLoading st' = true /\
    inputValue st' = [] /\
    sockets st' = sockets st /\ ws st' = ws st /\
    connectionStatus st' = connectionStatus st.
Proof.
  intros Hb Hl Hc st'. subst st'. unfold handleSendMessage.
  rewrite (guard_open st Hb Hl).
  change (channelOpen (setIsLoading true _)) with (channelOpen st). rewrite Hc.
  change (ws (setIsLoading true _)) with (ws st).
  unfold channelOpen, readyState in Hc.
  destruct (ws st) as [i|] eqn:Hws; simpl in Hc; [|done].
  exists i. split; [done|]. split; [|done].
  destruct (sockets st !! i) as [[]|]; done.
Qed.

Lemma send_while_connected_witness :
  exists i,
    ws ready = Some i /\ sockets ready !! i = Some OPEN /\
    messages (handleSendMessage 5 ready)
      = messages ready ++
        [ {| id := 5; text := inputValue ready; sender := user; timestamp := 5 |} ] /\
    wire (handleSendMessage 5 ready) = wire ready ++ [Out i (inputValue ready)] /\
    isLoading (handleSendMessage 5 ready) = true /\
    inputValue (handleSendMessage 5 ready) = [] /\
    sockets (handleSendMessage 5 ready) = sockets ready /\
    ws (handleSendMessage 5 ready) = ws ready /\
    connectionStatus (handleSendMessage 5 ready) = connectionStatus ready.
Proof.
  apply (send_while_connected 5%Z ready).
  - intros H. apply Forall_inv in H. discriminate.
  - reflexivity.
  - reflexivity.
Defined.

Lemma step_history e st :
  isClear e = false -> messages st `prefix_of` messages (step e st).
Proof.
  intros He. destruct e as [v|now| |now| |i|now i data|i|i]; simpl; try done.
  - unfold handleSendMessage.
    destruct (negb _ || _); [done|].
    destruct (channelOpen _).
    + destruct (ws _); simpl; by apply prefix_app_r.
    + rewrite (proj2 (proj2 (connectWebSocket_frame _))). simpl.
      rewrite <- app_assoc. by apply prefix_app_r.
  - by rewrite (proj2 (proj2 (connectWebSocket_frame _))).
  - by apply prefix_app_r.
Qed.

(** X19.  Short of the Clear button, the history only grows at its end:
    over any sequence of typing, submitting, reconnecting, toggling and
    socket events, the messages shown before are a prefix of the messages
    shown after; nothing is edited, reordered or dropped. *)
Theorem history_only_grows es st :
  Forall (fun e => isClear e = false) es ->
  messages st `prefix_of` messages (run es st).
Proof.
  unfold run. intros H. revert st.
  induction H as [|e es He _ IH]; intros st; simpl; [done|].
  etransitivity; [by apply step_history|apply IH].
Qed.

Lemma history_only_grows_witness :
  messages (mounted 0) `prefix_of` messages waiting.
Proof.
  apply (history_only_grows [Opened 0; Typed (lit "hello"); Submit 5] (mounted 0)).
  repeat constructor.
Defined.

Lemma connect_newest st : newest st -> newest (connectWebSocket st).
Proof.
  intros [H1 H2]. unfold connectWebSocket.
  destruct (channelOpen st); [done|]. unfold newest. simpl.
  rewrite length_app. simpl. split; [lia|]. f_equal. lia.
Qed.

Lemma step_newest e st : newest st -> newest (step e st).
Proof.
  intros H. destruct e as [v|now| |now| |i|now i data|i|i]; simpl; try done.
  - unfold handleSendMessage.
    destruct (negb _ || _); [done|].
    destruct (channelOpen _).
    + by destruct (ws _).
    + by apply connect_newest.
  - by apply connect_newest.
  - destruct H as [H1 H2]. unfold newest. simpl. by rewrite length_insert.
  - destruct H as [H1 H2]. unfold newest. simpl. by rewrite length_insert.
Qed.

(** X20.  Whatever happens to the mounted component, [ws.current] is never
    null and always refers to the socket created last: a reconnect replaces
    the reference, and no handler ever points it back at an older socket,
    so a frame can only be handed to the newest socket. *)
Theorem current_socket_is_newest now es :
  let st := run es (mounted now) in
  1 <= length (sockets st) /\
  ws st = Some (length (sockets st) - 1) /\
  is_Some (readyState st).
Proof.
  intros st.
  assert (newest st) as [H1 H2].
  { subst st. unfold run.
    generalize (mounted now), (conj (le_n 1) eq_refl : newest (mounted now)).
    induction es as [|e es IH]; intros s Hs; simpl; [done|].
    by apply IH, step_newest. }
  split; [done|]. split; [done|].
  unfold readyState. rewrite H2. simpl. apply lookup_lt_is_Some. lia.
Qed.

Lemma sent_app w1 w2 : sent (w1 ++ w2) = sent w1 ++ sent w2.
Proof. unfold sent. apply omap_app. Qed.

Lemma userTexts_app m1 m2 : userTexts (m1 ++ m2) = userTexts m1 ++ userTexts m2.
Proof. unfold userTexts. by rewrite List.filter_app, map_app. Qed.

Lemma step_shown e st : isClear e = false -> shown st -> shown (step e st).
Proof.
  unfold shown. intros He H.
  destruct e as [v|now| |now| |i|now i data|i|i]; simpl; try done.
  - unfold handleSendMessage.
    destruct (negb _ || _); [done|].
    destruct (channelOpen _).
    + destruct (ws _) as [i|]; simpl.
      * rewrite sent_app, userTexts_app. simpl. by apply sublist_app.
      * rewrite userTexts_app. by apply sublist_inserts_r.
    + destruct (connectWebSocket_frame
                  (setIsLoading false
                     (setMessages (fun prev => prev ++ [ {| id := now + 1; text := warningText;
                                                  sender := bot; timestamp := now |} ])
                        (setIsLoading true (setInputValue []
                           (setMessages (fun prev => prev ++ [ {| id := now; text := inputValue st; sender := user; timestamp := now |} ]) st))))))
        as (-> & _ & ->).
      simpl. rewrite <- app_assoc, userTexts_app. by apply sublist_inserts_r.
  - by destruct (connectWebSocket_frame st) as (-> & _ & ->).
  - rewrite sent_app, userTexts_app. simpl. by rewrite !app_nil_r.
Qed.

(** X21.  Nothing goes out unseen: short of the Clear button, the texts
    handed to the sockets since the component was mounted are, in order, a
    subsequence of the texts of the user messages in the history.  Every
    frame sent is shown as a user message; a user message that was not sent
    is one submitted while the socket was not open. *)
Theorem nothing_sent_unseen now es :
  Forall (fun e => isClear e = false) es ->
  sent (wire (run es (mounted now))) `sublist_of` userTexts (messages (run es (mounted now))).
Proof.
  intros H. unfold run.
  assert (shown (mounted now)) as H0 by (unfold shown; simpl; apply sublist_nil_l).
  revert H0. generalize (mounted now).
  induction H as [|e es He _ IH]; intros s Hs; simpl; [done|].
  by apply IH, step_shown.
Qed.

Lemma nothing_sent_unseen_witness :
  sent (wire waiting) `sublist_of` userTexts (messages waiting).
Proof.
  apply (nothing_sent_unseen 0%Z [Opened 0; Typed (lit "hello"); Submit 5]).
  repeat constructor.
Defined.

End ConversationFacts.

(* ===================================================================== *)
(** ** The socket address *)
(* ===================================================================== *)

Module ConfigFacts.
Import Config.

Lemma replaceAtStart_app p r s : replaceAtStart (p ++ s)%string p r = (r ++ s)%string.
Proof.
  unfold replaceAtStart. rewrite StringFacts.prefix_app. f_equal.
  induction p as [|c p IH].
  - change (EmptyString ++ s)%string with s. simpl. rewrite Nat.sub_0_r.
    apply StringFacts.substring_all.
  - change (String c p ++ s)%string with (String c (p ++ s)%string). exact IH.
Qed.

Lemma https_is_http s : String.prefix "https" s = true -> String.prefix "http" s = true.
Proof.
  intros H. rewrite (StringFacts.prefix_split _ _ H).
  apply (StringFacts.prefix_app "http" (String "s" _)).
Qed.

(** X22.  The socket address follows the scheme of the API address.  The
    second replacement of [WS_URL] never fires: the first one has already
    turned a leading 'http' into 'ws', so the result is that of the first
    replacement alone.  An address that does not start with 'http' is used
    unchanged, 'http://rest' becomes 'ws://rest' and 'https://rest' becomes
    'wss://rest'. *)
Theorem ws_url_follows_scheme base :
  WS_URL base = replaceAtStart base "http" "ws" /\
  (String.prefix "http" base = false -> WS_URL base = base) /\
  (forall rest, base = ("http://" ++ rest)%string -> WS_URL base = ("ws://" ++ rest)%string) /\
  (forall rest, base = ("https://" ++ rest)%string -> WS_URL base = ("wss://" ++ rest)%string).
Proof.
  assert (WS_URL base = replaceAtStart base "http" "ws") as Hone.
  { unfold WS_URL. unfold replaceAtStart at 2.
    destruct (String.prefix "http" base) eqn:E.
    - unfold replaceAtStart. by rewrite E.
    - unfold replaceAtStart. rewrite E.
      destruct (String.prefix "https" base) eqn:F; [|done].
      apply https_is_http in F. congruence. }
  split; [done|]. rewrite Hone. split.
  - intros E. unfold replaceAtStart. by rewrite E.
  - split; intros rest ->.
    + apply (replaceAtStart_app "http" "ws" (String ":" (String "/" (String "/" rest)))).
    + apply (replaceAtStart_app "http" "ws" (String "s" (String ":" (String "/" (String "/" rest))))).
Qed.

Lemma ws_url_follows_scheme_witness :
  WS_URL "https://bpm.example.com" = "wss://bpm.example.com" /\
  WS_URL (API_BASE None "development" "https://bpm.example.com") = "ws://localhost:8000".
Proof.
  split.
  - apply (proj2 (proj2 (proj2 (ws_url_follows_scheme "https://bpm.example.com")))
             "bpm.example.com").
    reflexivity.
  - apply (proj1 (proj2 (proj2 (ws_url_follows_scheme
                                  (API_BASE None "development" "https://bpm.example.com"))))
             "localhost:8000").
    reflexivity.
Defined.

End ConfigFacts.
